(** * mdp/nodes/scikits_nodes.py: discovery walk, adapter synthesis, registry

    A shallow embedding of the module that wraps the algorithms of
    scikits.learn as MDP nodes.  Python objects that the code compares by
    identity (classes, modules) carry an address; the module graph, which
    may be cyclic, lives in a heap indexed by module address.  Exceptions
    are values of an error monad, the recursion of the traversal is bounded
    by fuel, and lists that the Python code mutates in place are threaded
    through as state. *)

From Stdlib Require Import Ascii.
From stdpp Require Import gmap strings list fin_maps relations.

Local Open Scope string_scope.
Local Open Scope list_scope.
Local Open Scope nat_scope.

(** ** Python strings *)

Module PyStr.

(** [s.startswith(p)] *)
Definition startswith (s p : string) : bool := String.prefix p s.

(** [s.endswith(p)] *)
Definition endswith (s p : string) : bool :=
  let n := String.length s in
  let k := String.length p in
  if decide (k ≤ n) then bool_decide (String.substring (n - k) k s = p) else false.

(** [s[:n]] *)
Definition take (n : nat) (s : string) : string := String.substring 0 n s.

End PyStr.

(** ** Exceptions and the error monad *)

Inductive exn_class :=
  | Exception
  | AttributeError
  | IndexError
  | NodeException        (* mdp.NodeException *)
  | ScikitsException.    (* class ScikitsException(mdp.NodeException) *)

Global Instance exn_class_eq_dec : EqDecision exn_class.
Proof. solve_decision. Defined.

(** The direct base class of an exception class, [None] at the root. *)
Definition exn_base (k : exn_class) : option exn_class :=
  match k with
  | Exception => None
  | AttributeError | IndexError | NodeException => Some Exception
  | ScikitsException => Some NodeException
  end.

(** [issubclass(k, k')] for exception classes; the hierarchy has depth 3. *)
Fixpoint exn_issubclass_upto (n : nat) (k k' : exn_class) : bool :=
  bool_decide (k = k') ||
  match n, exn_base k with
  | S n', Some b => exn_issubclass_upto n' b k'
  | _, _ => false
  end.

Definition exn_issubclass : exn_class → exn_class → bool := exn_issubclass_upto 3.

Record exn := Exn { exn_cls : exn_class; exn_msg : string }.

Inductive result (A : Type) :=
  | Ok (a : A)
  | Raise (e : exn).
Arguments Ok {A} a.
Arguments Raise {A} e.

Definition bind {A B} (r : result A) (k : A → result B) : result B :=
  match r with
  | Ok a => k a
  | Raise e => Raise e
  end.

Notation "'let!' x ':=' r 'in' k" := (bind r (λ x, k))
  (at level 10, x name, r at level 100, k at level 200).

(** A loop [for x in l: a = f(x, a)] whose body may raise. *)
Fixpoint foldM {A B} (f : B → A → result A) (l : list B) (a : A) : result A :=
  match l with
  | [] => Ok a
  | x :: l' => let! a' := f x a in foldM f l' a'
  end.

(** ** Classes and modules of the wrapped library *)

(** What [getattr(cls, name)] yields: an unbound method, which has an
    [im_func] whose [__doc__] may be [None], or any other object (a slot
    wrapper such as [object.__init__], a static method, a constant). *)
Inductive attr :=
  | Method (doc : option string)
  | Plain (doc : option string).

Global Instance attr_eq_dec : EqDecision attr.
Proof. solve_decision. Defined.

Record Class := {
  cls_addr : nat;                     (* identity of the class object *)
  cls_name : string;                  (* __name__ *)
  cls_module : string;                (* __module__ *)
  cls_doc : option string;            (* __doc__ *)
  cls_attrs : list (string * attr);   (* what getattr can see, inherited included *)
  cls_mro : list nat                  (* addresses of the proper ancestors *)
}.

Global Instance Class_eq_dec : EqDecision Class.
Proof. solve_decision. Defined.

Fixpoint assoc {V} (k : string) (l : list (string * V)) : option V :=
  match l with
  | [] => None
  | (k', v) :: l' => if decide (k = k') then Some v else assoc k l'
  end.

(** [getattr(cls, name)]: raises AttributeError when the name is missing. *)
Definition getattr (c : Class) (name : string) : result attr :=
  match assoc name (cls_attrs c) with
  | Some a => Ok a
  | None => Raise (Exn AttributeError name)
  end.

(** [hasattr(cls, name)] *)
Definition hasattr (c : Class) (name : string) : bool :=
  match getattr c name with
  | Ok _ => true
  | Raise _ => false
  end.

(** [issubclass(c, marker)] *)
Definition issubclass (c marker : Class) : bool :=
  bool_decide (c = marker) || bool_decide (cls_addr marker ∈ cls_mro c).

Inductive member :=
  | MClass (c : Class)
  | MModule (m : nat)     (* address of a module in the heap *)
  | MOther.               (* functions, constants, ... *)

Record PyModule := {
  mod_name : string;                      (* __name__ *)
  mod_dict : list (string * member)       (* __dict__.items() *)
}.

Abbreviation heap := (gmap nat PyModule).

(** A member that is a module is a module of the heap. *)
Definition resolves (h : heap) (mem : member) : Prop :=
  match mem with
  | MModule m' => is_Some (h !! m')
  | _ => True
  end.

Global Instance resolves_dec h mem : Decision (resolves h mem).
Proof. destruct mem; apply _. Defined.

(** Every module that a module of the heap binds is in the heap. *)
Definition heap_closed (h : heap) : Prop :=
  map_Forall (λ _ md, Forall (λ item, resolves h item.2) (mod_dict md)) h.

Global Instance heap_closed_dec h : Decision (heap_closed h).
Proof. apply _. Defined.

(** ** The discovery walk *)

Record walk_state (A : Type) := WalkState {
  processed_modules : list nat;
  processed_classes : list Class;
  action_state : A
}.
Arguments WalkState {A} _ _ _.
Arguments processed_modules {A} _.
Arguments processed_classes {A} _.
Arguments action_state {A} _.

(** The test of lines 70-73. *)
Definition is_algorithm (c : Class) : bool :=
  (hasattr c "fit" || hasattr c "predict" || hasattr c "transform")
  && negb (PyStr.endswith (cls_module c) "_").

Section Walk.
Context {A : Type}.
Variable h : heap.
Variable action : Class → A → result A.

(** The value of a call and the state it leaves; [None] without fuel
    (or at a dangling module address). *)
Definition walk_result : Type :=
  option (result (option (list Class) * walk_state A)).

(** One iteration of the loop of line 63. *)
Definition visit_member (rec : nat → walk_state A → walk_result)
    (item : string * member) (st : walk_state A)
    : option (result (walk_state A)) :=
  let '(member_name, mem) := item in
  if PyStr.startswith member_name "_" then Some (Ok st)
  else match mem with
       | MClass c =>
           if bool_decide (c ∈ processed_classes st) then Some (Ok st)
           else
             let st1 := WalkState (processed_modules st)
                                  (processed_classes st ++ [c])
                                  (action_state st) in
             if is_algorithm c then
               match action c (action_state st1) with
               | Ok a => Some (Ok (WalkState (processed_modules st1)
                                             (processed_classes st1) a))
               | Raise e => Some (Raise e)
               end
             else Some (Ok st1)
       | MModule m' =>
           match h !! m' with
           | None => None
           | Some md' =>
               if PyStr.startswith (mod_name md') "scikits.learn" then
                 match rec m' st with
                 | Some (Ok (_, st')) => Some (Ok st')
                 | Some (Raise e) => Some (Raise e)
                 | None => None
                 end
               else Some (Ok st)
           end
       | MOther => Some (Ok st)
       end.

Fixpoint for_members (rec : nat → walk_state A → walk_result)
    (items : list (string * member)) (st : walk_state A)
    : option (result (walk_state A)) :=
  match items with
  | [] => Some (Ok st)
  | item :: rest =>
      match visit_member rec item st with
      | Some (Ok st') => for_members rec rest st'
      | r => r
      end
  end.

(** The body of [apply_to_scikits_algorithms] once the two lists exist. *)
Fixpoint walk (fuel : nat) (current_module : nat) (st : walk_state A)
    : walk_result :=
  match fuel with
  | O => None
  | S fuel' =>
      if bool_decide (current_module ∈ processed_modules st)
      then Some (Ok (None, st))
      else
        match h !! current_module with
        | None => None
        | Some md =>
            let st1 := WalkState (processed_modules st ++ [current_module])
                                 (processed_classes st)
                                 (action_state st) in
            match for_members (walk fuel') (mod_dict md) st1 with
            | Some (Ok st') => Some (Ok (Some (processed_classes st'), st'))
            | Some (Raise e) => Some (Raise e)
            | None => None
            end
        end
  end.

Definition apply_to_scikits_algorithms (fuel : nat) (current_module : nat)
    (processed_modules processed_classes : option (list _)) (a : A)
    : walk_result :=
  walk fuel current_module
    (WalkState (default [] processed_modules)
               (default [] processed_classes) a).

End Walk.

(** ** Synthesised node classes *)

Definition nl : string := String "010"%char "".

(** [_DOC_TEMPLATE % (module, name, doc)]; [%s] prints [None] as "None". *)
Definition _DOC_TEMPLATE (module name : string) (doc : option string) : string :=
  nl +:+ "[This node has been automatically generated by wrapping the" +:+ nl
  +:+ module +:+ "." +:+ name +:+ " class from the scikits.learn library." +:+ nl
  +:+ "The wrapped instance can be accessed through the 'scikits_alg' attribute.]"
  +:+ nl +:+ nl +:+ default "None" doc +:+ nl.

Definition _OUTPUTDIM_ERROR : string :=
  "'output_dim' keyword not supported." +:+ nl
  +:+ "                " +:+ nl
  +:+ "Please set the output dimensionality using scikits.learn keyword" +:+ nl
  +:+ "arguments (e.g., 'n_components', or 'k'). See the docstring of this" +:+ nl
  +:+ "class for details.".

(** Which of the three class statements created the node class; the base
    is mdp.ClassifierCumulator for the first and mdp.Cumulator otherwise. *)
Inductive node_kind := ClassifierNode | TransformerNode | PredictorNode.

Global Instance node_kind_eq_dec : EqDecision node_kind.
Proof. solve_decision. Defined.

(** A class object [ScikitsNode].  [scikits_class] is the variable its
    methods close over; [node_method_docs] holds the docstrings assigned
    to [im_func.__doc__], keyed by the MDP method name. *)
Record NodeClass := {
  node_kind_of : node_kind;
  scikits_class : Class;
  node_name : string;                         (* __name__ *)
  node_doc : string;                          (* __doc__ *)
  node_method_docs : list (string * string)
}.

Global Instance NodeClass_eq_dec : EqDecision NodeClass.
Proof. solve_decision. Defined.

Definition set_method_doc (mdp_name doc : string) (node : NodeClass) : NodeClass :=
  {| node_kind_of := node_kind_of node;
     scikits_class := scikits_class node;
     node_name := node_name node;
     node_doc := node_doc node;
     node_method_docs := (mdp_name, doc) :: node_method_docs node |}.

(** The class statement followed by the two assignments under
    "modify class name and docstring". *)
Definition new_node_class (k : node_kind) (c : Class) : NodeClass :=
  {| node_kind_of := k;
     scikits_class := c;
     node_name := cls_name c +:+ "ScikitsLearnNode";
     node_doc := _DOC_TEMPLATE (cls_module c) (cls_name c) (cls_doc c);
     node_method_docs := [] |}.

Definition attr_doc (a : attr) : option string :=
  match a with
  | Method d => d
  | Plain d => d
  end.

(** One iteration of [for mdp_name, scikits_name in methods_dict.items()].
    [getattr(ScikitsNode, mdp_name)] cannot fail, the MDP base classes
    define every name used; [getattr(scikits_class, scikits_name)] can. *)
Definition patch_method_doc (c : Class) (item : string * string)
    (node : NodeClass) : result NodeClass :=
  let '(mdp_name, scikits_name) := item in
  let! scikits_method := getattr c scikits_name in
  match scikits_method with
  | Method d =>
      Ok (set_method_doc mdp_name (_DOC_TEMPLATE (cls_module c) (cls_name c) d) node)
  | Plain _ => Ok node
  end.

(** The docstring loop and the final test on [__init__.__doc__]. *)
Definition patch_docs (c : Class) (methods_dict : list (string * string))
    (node : NodeClass) : result NodeClass :=
  let! node := foldM (patch_method_doc c) methods_dict node in
  let! init := getattr c "__init__" in
  match attr_doc init with
  | None =>
      Ok (set_method_doc "__init__"
            (_DOC_TEMPLATE (cls_module c) (cls_name c) (cls_doc c)) node)
  | Some _ => Ok node
  end.

Definition wrap_scikits_classifier (scikits_class : Class) : result NodeClass :=
  let ScikitsNode := new_node_class ClassifierNode scikits_class in
  let methods_dict :=
    [("__init__", "__init__"); ("stop_training", "fit"); ("label", "predict")]
    ++ (if hasattr scikits_class "predict_proba"
        then [("prob", "predict_proba")] else []) in
  patch_docs scikits_class methods_dict ScikitsNode.

Definition wrap_scikits_transformer (scikits_class : Class) : result NodeClass :=
  let ScikitsNode := new_node_class TransformerNode scikits_class in
  let methods_dict :=
    [("__init__", "__init__"); ("stop_training", "fit"); ("execute", "transform")] in
  patch_docs scikits_class methods_dict ScikitsNode.

Definition wrap_scikits_predictor (scikits_class : Class) : result NodeClass :=
  let ScikitsNode := new_node_class PredictorNode scikits_class in
  let methods_dict :=
    [("__init__", "__init__"); ("stop_training", "fit"); ("execute", "predict")] in
  patch_docs scikits_class methods_dict ScikitsNode.

(** The synthesiser of each shape. *)
Definition wrap_of (k : node_kind) : Class → result NodeClass :=
  match k with
  | ClassifierNode => wrap_scikits_classifier
  | TransformerNode => wrap_scikits_transformer
  | PredictorNode => wrap_scikits_predictor
  end.

(** The test of line 360. *)
Definition excluded_name (name : string) : bool :=
  bool_decide (PyStr.take 4 name = "Base") || bool_decide (name = "LinearModel").

Section Registry.
(** scikits.learn.base.ClassifierMixin *)
Variable ClassifierMixin : Class.

Definition wrap_scikits_algorithms (scikits_class : Class)
    (nodes_list : list NodeClass) : result (list NodeClass) :=
  let name := cls_name scikits_class in
  if excluded_name name then Ok nodes_list
  else if issubclass scikits_class ClassifierMixin then
    let! node := wrap_scikits_classifier scikits_class in
    Ok (nodes_list ++ [node])
  else if hasattr scikits_class "transform" then
    let! node := wrap_scikits_transformer scikits_class in
    Ok (nodes_list ++ [node])
  else if hasattr scikits_class "predict" then
    let! node := wrap_scikits_predictor scikits_class in
    Ok (nodes_list ++ [node])
  else Ok nodes_list.

(** The branch [wrap_scikits_algorithms] takes, as a value. *)
Definition classify (scikits_class : Class) : option node_kind :=
  if excluded_name (cls_name scikits_class) then None
  else if issubclass scikits_class ClassifierMixin then Some ClassifierNode
  else if hasattr scikits_class "transform" then Some TransformerNode
  else if hasattr scikits_class "predict" then Some PredictorNode
  else None.

(** Lines 370-372: the list the action appends to. *)
Definition scikits_nodes (h : heap) (fuel : nat) (scikits_learn : nat)
    : option (result (list NodeClass)) :=
  match apply_to_scikits_algorithms h wrap_scikits_algorithms fuel
          scikits_learn None None [] with
  | Some (Ok (_, st)) => Some (Ok (action_state st))
  | Some (Raise e) => Some (Raise e)
  | None => None
  end.

(** Lines 376-379. *)
Definition build_DICT_ (nodes : list NodeClass) : gmap string NodeClass :=
  foldl (λ d wrapped_c, <[node_name wrapped_c := wrapped_c]> d) ∅ nodes.

Definition DICT_ (h : heap) (fuel : nat) (scikits_learn : nat)
    : option (result (gmap string NodeClass)) :=
  match scikits_nodes h fuel scikits_learn with
  | Some (Ok nodes) => Some (Ok (build_DICT_ nodes))
  | Some (Raise e) => Some (Raise e)
  | None => None
  end.
End Registry.

(** ** Node instances *)

(** Arrays as numpy presents them to this module: a shape and the
    elements in row-major order. *)
Record ndarray (T : Type) := NdArray { shape : list nat; data : list T }.
Arguments NdArray {T} _ _.
Arguments shape {T} _.
Arguments data {T} _.

(** numpy's [y[:, newaxis]]: the whole first axis, then a new axis of
    length one; an array without axes has too many indices. *)
Definition index_all_newaxis {T} (y : ndarray T) : result (ndarray T) :=
  match shape y with
  | [] => Raise (Exn IndexError "too many indices")
  | n :: rest => Ok (NdArray (n :: 1 :: rest) (data y))
  end.

Section Nodes.
(** What the module takes from its collaborators: instances of the
    wrapped classes with their constructor and methods, the part of a
    node that the MDP base classes set up, and the world [W] that these
    calls may change. *)
Context {T Alg Kwargs Base W : Type}.
Variable construct : Class → Kwargs → W → result Alg * W.
Variable alg_predict : Alg → ndarray T → W → result (ndarray T) * W.
Variable alg_transform : Alg → ndarray T → W → result (ndarray T) * W.
Variable base_init :
  node_kind → option nat → option nat → option string → W → result Base * W.

Record Node := {
  node_class : NodeClass;
  node_base : Base;
  scikits_alg : Alg
}.

(** [ScikitsNode.__init__]; the three class bodies carry the same text. *)
Definition ScikitsNode_init (cls : NodeClass)
    (input_dim output_dim : option nat) (dtype : option string)
    (kwargs : Kwargs) (w : W) : result Node * W :=
  match output_dim with
  | Some _ => (Raise (Exn ScikitsException _OUTPUTDIM_ERROR), w)
  | None =>
      match base_init (node_kind_of cls) input_dim output_dim dtype w with
      | (Raise e, w1) => (Raise e, w1)
      | (Ok base, w1) =>
          match construct (scikits_class cls) kwargs w1 with
          | (Raise e, w2) => (Raise e, w2)
          | (Ok alg, w2) =>
              (Ok {| node_class := cls; node_base := base; scikits_alg := alg |},
               w2)
          end
      end
  end.

(** [_label] of the classifier nodes. *)
Definition classifier_label (self : Node) (x : ndarray T) (w : W)
    : result (ndarray T) * W :=
  match alg_predict (scikits_alg self) x w with
  | (Ok y, w') => (index_all_newaxis y, w')
  | (Raise e, w') => (Raise e, w')
  end.

(** [_execute] of the transformer nodes. *)
Definition transformer_execute (self : Node) (x : ndarray T) (w : W)
    : result (ndarray T) * W :=
  alg_transform (scikits_alg self) x w.

(** [_execute] of the predictor nodes. *)
Definition predictor_execute (self : Node) (x : ndarray T) (w : W)
    : result (ndarray T) * W :=
  alg_predict (scikits_alg self) x w.

(** [self._execute(x)]: the class of [self] decides which body runs.  A
    classifier node does not define [_execute] and inherits the one of
    mdp.ClassifierCumulator. *)
Variable base_execute : Node → ndarray T → W → result (ndarray T) * W.

Definition ScikitsNode_execute (self : Node) (x : ndarray T) (w : W)
    : result (ndarray T) * W :=
  match node_kind_of (node_class self) with
  | ClassifierNode => base_execute self x w
  | TransformerNode => transformer_execute self x w
  | PredictorNode => predictor_execute self x w
  end.

(** [self._label(x)]: only the classifier nodes define it, mdp.Cumulator
    has no such attribute. *)
Definition ScikitsNode_label (self : Node) (x : ndarray T) (w : W)
    : result (ndarray T) * W :=
  match node_kind_of (node_class self) with
  | ClassifierNode => classifier_label self x w
  | TransformerNode | PredictorNode => (Raise (Exn AttributeError "_label"), w)
  end.

End Nodes.

(** The static methods and [_get_supported_dtypes]; again the same text
    in the three class bodies. *)
Definition is_invertible (cls : NodeClass) : bool := false.

Definition is_trainable (cls : NodeClass) : bool :=
  hasattr (scikits_class cls) "fit".

Definition _get_supported_dtypes (cls : NodeClass) : list string :=
  ["float32"; "float64"].

(** ** The namespace graph the walk explores *)

(** [m] binds the module [m'] under a public name, and [m'] is named inside
    the package: the condition under which line 79 recurses. *)
Definition submodule (h : heap) (m m' : nat) : Prop :=
  ∃ md name md',
    h !! m = Some md ∧ (name, MModule m') ∈ mod_dict md ∧
    PyStr.startswith name "_" = false ∧
    h !! m' = Some md' ∧ PyStr.startswith (mod_name md') "scikits.learn" = true.

(** [m] binds the class [c] under a public name. *)
Definition exposes (h : heap) (m : nat) (c : Class) : Prop :=
  ∃ md name,
    h !! m = Some md ∧ (name, MClass c) ∈ mod_dict md ∧
    PyStr.startswith name "_" = false.

Definition reachable (h : heap) (root m : nat) : Prop := rtc (submodule h) root m.

(** ** Sample namespaces *)

Module Sample.

Definition mk_class (addr : nat) (name modname : string)
    (attrs : list string) (mro : list nat) : Class :=
  {| cls_addr := addr; cls_name := name; cls_module := modname;
     cls_doc := Some "doc";
     cls_attrs := ("__init__", Plain (Some "x.__init__(...)")) ::
                  map (λ n, (n, Method None)) attrs;
     cls_mro := mro |}.

Definition ClassifierMixin : Class :=
  mk_class 0 "ClassifierMixin" "scikits.learn.base" ["score"] [].
Definition SVC : Class :=
  mk_class 1 "SVC" "scikits.learn.svm.libsvm" ["fit"; "predict"] [0].
Definition PCA : Class :=
  mk_class 2 "PCA" "scikits.learn.pca" ["fit"; "transform"] [].
Definition Lasso : Class :=
  mk_class 3 "Lasso" "scikits.learn.glm" ["fit"; "predict"] [].
Definition BaseLib : Class :=
  mk_class 4 "BaseLibSVM" "scikits.learn.svm.base" ["fit"; "predict"] [].
Definition Hidden : Class :=
  mk_class 5 "Hidden" "scikits.learn._impl" ["fit"; "predict"] [].
Definition Helper : Class :=
  mk_class 6 "Helper" "scikits.learn.utils" ["score"] [].
Definition Ext : Class :=
  mk_class 7 "Ext" "scikits.learn._ext_" ["fit"] [].
Definition SparseSVC : Class :=
  mk_class 8 "SVC" "scikits.learn.svm.sparse" ["fit"; "predict"] [0].
Definition Scaler : Class :=
  mk_class 9 "Scaler" "scikits.learn.preprocessing" ["transform"] [].

(** Module 10 is the root; 10 and 11 bind each other (a cycle), both
    bind SVC; 12 is bound only under a private name; 13 is numpy. *)
Definition cyclic : heap :=
  {[ 10 := {| mod_name := "scikits.learn";
              mod_dict := [("svm", MModule 11); ("SVC", MClass SVC);
                           ("_impl", MModule 12); ("np", MModule 13);
                           ("Helper", MClass Helper); ("__doc__", MOther);
                           ("Ext", MClass Ext)] |};
     11 := {| mod_name := "scikits.learn.svm";
              mod_dict := [("SVC", MClass SVC); ("learn", MModule 10);
                           ("PCA", MClass PCA);
                           ("_Private", MClass Lasso);
                           ("BaseLibSVM", MClass BaseLib)] |};
     12 := {| mod_name := "scikits.learn._impl";
              mod_dict := [("Hidden", MClass Hidden)] |};
     13 := {| mod_name := "numpy";
              mod_dict := [("Lasso", MClass Lasso)] |} ]}.

(** An action that records the classes it is called with. *)
Definition record (c : Class) (calls : list Class) : result (list Class) :=
  Ok (calls ++ [c]).

(** Two classes called SVC, one in a subpackage of the other's package. *)
Definition clash : heap :=
  {[ 20 := {| mod_name := "scikits.learn";
              mod_dict := [("svm", MModule 21)] |};
     21 := {| mod_name := "scikits.learn.svm";
              mod_dict := [("SVC", MClass SVC); ("sparse", MModule 22)] |};
     22 := {| mod_name := "scikits.learn.svm.sparse";
              mod_dict := [("SVC", MClass SparseSVC)] |} ]}.

(** A package whose only class has [transform] and no [fit]. *)
Definition stateless : heap :=
  {[ 30 := {| mod_name := "scikits.learn";
              mod_dict := [("Scaler", MClass Scaler)] |} ]}.

(** Stub collaborators.  The world counts the instances of wrapped
    classes constructed and logs the arrays handed to their methods. *)
Record world := { constructed : nat; seen : list (ndarray nat) }.

Definition construct (c : Class) (kwargs : list (string * nat)) (w : world)
    : result Class * world :=
  (Ok c, {| constructed := S (constructed w); seen := seen w |}).

Definition base_init (k : node_kind) (input_dim output_dim : option nat)
    (dtype : option string) (w : world) : result unit * world :=
  (Ok (), w).

(** [predict] answers one label per row, in a flat array. *)
Definition predict (alg : Class) (x : ndarray nat) (w : world)
    : result (ndarray nat) * world :=
  let n := hd 0 (shape x) in
  (Ok (NdArray [n] (replicate n 1)),
   {| constructed := constructed w; seen := seen w ++ [x] |}).

(** [transform] doubles every element. *)
Definition transform (alg : Class) (x : ndarray nat) (w : world)
    : result (ndarray nat) * world :=
  (Ok (NdArray (shape x) (map (λ v, 2 * v) (data x))),
   {| constructed := constructed w; seen := seen w ++ [x] |}).

Definition batch : ndarray nat := NdArray [3; 2] [1; 2; 3; 4; 5; 6].

Definition node_of (cls : NodeClass) : @Node Class unit :=
  {| node_class := cls; node_base := (); scikits_alg := scikits_class cls |}.

End Sample.

(** ** What one call of the walk establishes *)

Section WalkSpec.
Context {A : Type}.
Variable h : heap.
Variable action : Class → A → result A.

Implicit Types st : walk_state A.

(** Everything [x] binds publicly has been processed. *)
Definition closed_in st (x : nat) : Prop :=
  (∀ y, submodule h x y → y ∈ processed_modules st) ∧
  (∀ c, exposes h x c → c ∈ processed_classes st).

(** The classes on which the action runs, among newly visited ones. *)
Definition acted (newc : list Class) : list Class :=
  filter (λ c, is_algorithm c = true) newc.

(** The state change of the iterations of the loop inside module [m]. *)
Definition loop_post (m : nat) st st' : Prop :=
  ∃ newm newc,
    processed_modules st' = processed_modules st ++ newm ∧
    processed_classes st' = processed_classes st ++ newc ∧
    (NoDup (processed_modules st) → NoDup (processed_modules st')) ∧
    (NoDup (processed_classes st) → NoDup (processed_classes st')) ∧
    (∀ x, x ∈ newm → closed_in st' x) ∧
    (∀ x, x ∈ newm → rtc (submodule h) m x) ∧
    (∀ c, c ∈ newc → ∃ x, (x = m ∨ x ∈ newm) ∧ exposes h x c) ∧
    foldM action (acted newc) (action_state st) = Ok (action_state st').

(** The state change of one call on module [m]. *)
Definition walk_post (m : nat) st st' : Prop :=
  m ∈ processed_modules st' ∧
  ∃ newm newc,
    processed_modules st' = processed_modules st ++ newm ∧
    processed_classes st' = processed_classes st ++ newc ∧
    (NoDup (processed_modules st) → NoDup (processed_modules st')) ∧
    (NoDup (processed_classes st) → NoDup (processed_classes st')) ∧
    (∀ x, x ∈ newm → closed_in st' x) ∧
    (∀ x, x ∈ newm → rtc (submodule h) m x) ∧
    (∀ c, c ∈ newc → ∃ x, x ∈ newm ∧ exposes h x c) ∧
    foldM action (acted newc) (action_state st) = Ok (action_state st').

(** A loop item has had its effect on the state. *)
Definition covered st (item : string * member) : Prop :=
  PyStr.startswith item.1 "_" = false →
  match item.2 with
  | MClass c => c ∈ processed_classes st
  | MModule m' =>
      ∀ md', h !! m' = Some md' →
        PyStr.startswith (mod_name md') "scikits.learn" = true →
        m' ∈ processed_modules st
  | MOther => True
  end.

(** The value of a call: [None] at an already processed module, the list
    of processed classes otherwise. *)
Definition walk_value (m : nat) st (v : option (list Class)) st' : Prop :=
  m ∈ processed_modules st ∧ v = None ∧ st' = st ∨
  (m ∉ processed_modules st) ∧ v = Some (processed_classes st').

(** Modules of the heap that have not been entered yet. *)
Definition unprocessed st : gset nat :=
  dom h ∖ list_to_set (processed_modules st).

(** The exception is one the action raised. *)
Definition raised_by_action (e : exn) : Prop := ∃ c a, action c a = Raise e.

End WalkSpec.

(** ** Loading the submodules *)

(** Lines 15-19. *)
Definition scikits_modules : list string :=
  ["ann"; "cluster"; "covariance"; "feature_extraction";
   "feature_selection"; "features"; "gaussian_process"; "glm";
   "linear_model"; "preprocessing"; "svm";
   "pca"; "lda"; "hmm"; "fastica"; "grid_search"; "mixture";
   "naive_bayes"; "neighbors"; "qda"].

(** What an import can raise, as far as [except ImportError] tells apart. *)
Inductive import_failure :=
  | ImportError
  | OtherFailure (e : exn).

Section Imports.
Context {W : Type}.
(** [__import__], acting on the interpreter state. *)
Variable import_ : string → W → option import_failure * W.

(** The loop of lines 20-27 over a list of names: the first exception
    that is not an ImportError leaves the loop. *)
Fixpoint import_all (names : list string) (w : W) : option exn * W :=
  match names with
  | [] => (None, w)
  | name :: rest =>
      match import_ ("scikits.learn." +:+ name) w with
      | (None, w') => import_all rest w'
      | (Some ImportError, w') => import_all rest w'
      | (Some (OtherFailure e), w') => (Some e, w')
      end
  end.

Definition import_submodules : W → option exn * W := import_all scikits_modules.

(** The interpreter state after the imports of [names] have been tried. *)
Definition after_imports (names : list string) (w : W) : W :=
  foldl (λ w name, (import_ ("scikits.learn." +:+ name) w).2) w names.

End Imports.

(** ** Vocabulary for the synthesisers *)

(** The attributes the docstring code of each synthesiser looks up
    without a guard. *)
Definition required_attrs (k : node_kind) : list string :=
  match k with
  | ClassifierNode => ["__init__"; "fit"; "predict"]
  | TransformerNode => ["__init__"; "fit"; "transform"]
  | PredictorNode => ["__init__"; "fit"; "predict"]
  end.

(** The docstring a method of the node class ends up with, if any was
    assigned: the assignment made last is at the head. *)
Definition method_doc (cls : NodeClass) (mdp_name : string) : option string :=
  assoc mdp_name (node_method_docs cls).

(** The docstring [__init__] is left with, by lines 163-178. *)
Definition init_doc_rule (c : Class) (init : attr) : option string :=
  match init with
  | Method (Some d) => Some (_DOC_TEMPLATE (cls_module c) (cls_name c) (Some d))
  | Method None | Plain None =>
      Some (_DOC_TEMPLATE (cls_module c) (cls_name c) (cls_doc c))
  | Plain (Some _) => None
  end.

(** ** More sample data *)

Module Fixtures.

(** An action that fails on PCA and records every other class. *)
Definition picky (c : Class) (calls : list Class) : result (list Class) :=
  if bool_decide (cls_name c = "PCA") then Raise (Exn Exception "no PCA")
  else Ok (calls ++ [c]).

(** An importer for a system without two of the submodules and with a
    broken third one; the state lists the names asked for. *)
Definition importer (broken : bool) (name : string) (w : list string)
    : option import_failure * list string :=
  (if bool_decide (name = "scikits.learn.ann")
      || bool_decide (name = "scikits.learn.hmm") then Some ImportError
   else if broken && bool_decide (name = "scikits.learn.glm")
   then Some (OtherFailure (Exn Exception "syntax"))
   else None,
   w ++ [name]).

(** A class whose predict answers with a table rather than a flat array. *)
Definition predict_table (alg : Class) (x : ndarray nat) (w : Sample.world)
    : result (ndarray nat) * Sample.world :=
  (Ok (NdArray [2; 3] [1; 2; 3; 4; 5; 6]), w).

Definition BaselineModel : Class :=
  Sample.mk_class 40 "Baseline" "scikits.learn.dummy" ["fit"; "predict"] [].

(** A package that binds a module of another distribution whose name
    merely begins with the name of the package. *)
Definition lookalike : heap :=
  {[ 50 := {| mod_name := "scikits.learn";
              mod_dict := [("learnx", MModule 51)] |};
     51 := {| mod_name := "scikits.learnx";
              mod_dict := [("Lasso", MClass Sample.Lasso)] |} ]}.

End Fixtures.

(** ** Vocabulary for calls with lists of the caller *)

(** [st'] is [st] with modules and classes appended that were not there
    and with the action run on the appended classes that pass the test. *)
Definition extended {A} (action : Class → A → result A)
    (st st' : walk_state A) : Prop :=
  ∃ newm newc,
    processed_modules st' = processed_modules st ++ newm ∧
    processed_classes st' = processed_classes st ++ newc ∧
    NoDup newm ∧ NoDup newc ∧
    (∀ x, x ∈ newm → x ∉ processed_modules st) ∧
    (∀ c, c ∈ newc → c ∉ processed_classes st) ∧
    foldM action (acted newc) (action_state st) = Ok (action_state st').

(** ** Facts about strings, heaps and the error monad *)

Lemma append_cons a s t : String a s +:+ t = String a (s +:+ t).
Proof. reflexivity. Qed.

Lemma list_ascii_of_string_app s t :
  String.list_ascii_of_string (s +:+ t)
  = String.list_ascii_of_string s ++ String.list_ascii_of_string t.
Proof.
  induction s as [|a s IH]; [done|].
  rewrite append_cons. simpl. by rewrite IH.
Qed.

Lemma append_inv_tail s1 s2 t : s1 +:+ t = s2 +:+ t → s1 = s2.
Proof.
  intros H. apply (f_equal String.list_ascii_of_string) in H.
  rewrite !list_ascii_of_string_app in H. apply app_inv_tail in H.
  apply (f_equal String.string_of_list_ascii) in H.
  by rewrite !String.string_of_list_ascii_of_string in H.
Qed.

Lemma take_Base rest : PyStr.take 4 ("Base" +:+ rest) = "Base".
Proof. by destruct rest. Qed.

Lemma heap_closed_lookup h m md name m' :
  heap_closed h → h !! m = Some md → (name, MModule m') ∈ mod_dict md →
  is_Some (h !! m').
Proof.
  intros Hcl Hm Hin. specialize (Hcl m md Hm). simpl in Hcl.
  rewrite Forall_forall in Hcl. apply (Hcl _ Hin).
Qed.


Lemma foldM_app {A B} (f : B → A → result A) (l1 l2 : list B) (a : A) :
  foldM f (l1 ++ l2) a = (let! a' := foldM f l1 a in foldM f l2 a').
Proof.
  revert a. induction l1 as [|x l1 IH]; intros a; simpl; [done|].
  destruct (f x a) as [a1|e]; simpl; [apply IH | done].
Qed.

Lemma foldM_ok_app {A B} (f : B → A → result A) l1 l2 (a a1 a2 : A) :
  foldM f l1 a = Ok a1 → foldM f l2 a1 = Ok a2 → foldM f (l1 ++ l2) a = Ok a2.
Proof. intros H1 H2. rewrite foldM_app, H1. exact H2. Qed.

(** ** The walk meets its postcondition *)

Section WalkTheory.
Context {A : Type}.
Variable h : heap.
Variable action : Class → A → result A.

Implicit Types st : walk_state A.

Local Abbreviation closed_in := (closed_in h).
Local Abbreviation loop_post := (loop_post h action).
Local Abbreviation walk_post := (walk_post h action).
Local Abbreviation covered := (covered h).
Local Abbreviation unprocessed := (unprocessed h).
Local Abbreviation raised_by_action := (raised_by_action action).

Lemma closed_in_mono st st' x :
  processed_modules st ⊆ processed_modules st' →
  processed_classes st ⊆ processed_classes st' →
  closed_in st x → closed_in st' x.
Proof. intros Hm Hc [H1 H2]. split; intros; [apply Hm | apply Hc]; auto. Qed.

Lemma covered_mono st st' item :
  processed_modules st ⊆ processed_modules st' →
  processed_classes st ⊆ processed_classes st' →
  covered st item → covered st' item.
Proof.
  intros Hm Hc H Hpub. specialize (H Hpub).
  destruct item as [name [c|m'|]]; simpl in *; [apply Hc, H | | done].
  intros md' Hl Hp. apply Hm. eauto.
Qed.

Lemma loop_post_refl m st : loop_post m st st.
Proof.
  exists [], []. rewrite !app_nil_r.
  split_and!; try done; intros x Hx; by apply elem_of_nil in Hx.
Qed.

Lemma loop_post_incl m st st' :
  loop_post m st st' →
  processed_modules st ⊆ processed_modules st' ∧
  processed_classes st ⊆ processed_classes st'.
Proof.
  intros (newm & newc & -> & -> & _). split; intros x Hx; set_solver.
Qed.

Lemma loop_post_trans m st1 st2 st3 :
  loop_post m st1 st2 → loop_post m st2 st3 → loop_post m st1 st3.
Proof.
  intros H12 H23. destruct (loop_post_incl _ _ _ H23) as [Im Ic].
  destruct H12 as (nm1 & nc1 & Em1 & Ec1 & Dm1 & Dc1 & Cl1 & Re1 & Ex1 & F1).
  destruct H23 as (nm2 & nc2 & Em2 & Ec2 & Dm2 & Dc2 & Cl2 & Re2 & Ex2 & F2).
  exists (nm1 ++ nm2), (nc1 ++ nc2). split_and!.
  - by rewrite Em2, Em1, app_assoc.
  - by rewrite Ec2, Ec1, app_assoc.
  - auto.
  - auto.
  - intros x [Hx|Hx]%elem_of_app; [|by apply Cl2].
    eapply closed_in_mono; [exact Im | exact Ic | by apply Cl1].
  - intros x [Hx|Hx]%elem_of_app; auto.
  - intros c [Hc|Hc]%elem_of_app.
    + destruct (Ex1 c Hc) as (x & Hx & He). exists x. split; [|done].
      destruct Hx; [by left | right; set_solver].
    + destruct (Ex2 c Hc) as (x & Hx & He). exists x. split; [|done].
      destruct Hx; [by left | right; set_solver].
  - unfold acted. rewrite filter_app. by eapply foldM_ok_app.
Qed.

Lemma acted_singleton c :
  acted [c] = if is_algorithm c then [c] else [].
Proof.
  unfold acted. rewrite filter_cons, filter_nil.
  destruct (is_algorithm c); by case_decide.
Qed.

(** The state after a class has been appended to [processed_classes]
    and, when it passes the test, handed to the action. *)
Lemma loop_post_new_class m st c a :
  exposes h m c → c ∉ processed_classes st →
  foldM action (acted [c]) (action_state st) = Ok a →
  loop_post m st (WalkState (processed_modules st)
                            (processed_classes st ++ [c]) a).
Proof.
  intros He Hni Hf. exists [], [c]. simpl. rewrite app_nil_r.
  split_and!; try done.
  - intros Hd. apply NoDup_app. split_and!; [done | | apply NoDup_singleton].
    intros x Hx ->%list_elem_of_singleton. done.
  - intros x Hx. by apply elem_of_nil in Hx.
  - intros x Hx. by apply elem_of_nil in Hx.
  - intros x ->%list_elem_of_singleton. exists m. auto.
Qed.

Section Loop.
Variable rec : nat → walk_state A → walk_result (A:=A).
Hypothesis rec_post :
  ∀ m st v st', rec m st = Some (Ok (v, st')) → walk_post m st st'.

Lemma visit_member_post m md item st st' :
  h !! m = Some md → item ∈ mod_dict md →
  visit_member h action rec item st = Some (Ok st') →
  loop_post m st st' ∧ covered st' item.
Proof.
  intros Hm Hin. destruct item as [name mem]. unfold visit_member, covered.
  simpl. destruct (PyStr.startswith name "_") eqn:Hpub.
  { intros [= <-]. split; [apply loop_post_refl | done]. }
  destruct mem as [c|m'|].
  - case_bool_decide as Hc.
    { intros [= <-]. split; [apply loop_post_refl | done]. }
    assert (exposes h m c) as He by (exists md, name; done).
    simpl. destruct (is_algorithm c) eqn:Halg.
    + destruct (action c (action_state st)) as [a|e] eqn:Ha; intros [= <-].
      split; [|intros _; simpl; set_solver].
      apply loop_post_new_class; [done..|].
      rewrite acted_singleton, Halg. simpl. by rewrite Ha.
    + intros [= <-]. split; [|intros _; simpl; set_solver].
      destruct st as [pm pc a]. simpl in *.
      apply (loop_post_new_class m (WalkState pm pc a) c a); [done..|].
      by rewrite acted_singleton, Halg.
  - destruct (h !! m') as [md'|] eqn:Hm'; [|done].
    destruct (PyStr.startswith (mod_name md') "scikits.learn") eqn:Hpre.
    + destruct (rec m' st) as [[[v st'']|e]|] eqn:Hr; intros [= <-].
      apply rec_post in Hr. destruct Hr as [Hin' Hr]. split; [|done].
      destruct Hr as (nm & nc & Em & Ec & Dm & Dc & Cl & Re & Ex & F).
      assert (submodule h m m') as Hsub by (exists md, name, md'; done).
      exists nm, nc. split_and!; try done.
      * intros x Hx. eapply rtc_l; [exact Hsub | by apply Re].
      * intros c Hc. destruct (Ex c Hc) as (x & Hx & He). exists x. auto.
    + intros [= <-]. split; [apply loop_post_refl|].
      intros _ md'' [= <-]. congruence.
  - intros [= <-]. split; [apply loop_post_refl | done].
Qed.

Lemma for_members_post m md items st st' :
  h !! m = Some md → items ⊆ mod_dict md →
  for_members h action rec items st = Some (Ok st') →
  loop_post m st st' ∧ ∀ item, item ∈ items → covered st' item.
Proof.
  intros Hm. revert st. induction items as [|item rest IH]; intros st Hsub.
  { intros [= <-]. split; [apply loop_post_refl|].
    intros item Hi. by apply elem_of_nil in Hi. }
  simpl. destruct (visit_member h action rec item st) as [[st1|e]|] eqn:Hv;
    [|done..].
  intros Hrest.
  assert (item ∈ mod_dict md) as Hi by (apply Hsub; left).
  assert (rest ⊆ mod_dict md) as Hsub' by (intros x Hx; apply Hsub; by right).
  destruct (visit_member_post m md _ _ _ Hm Hi Hv) as [P1 C1].
  destruct (IH _ Hsub' Hrest) as [P2 C2].
  split; [by eapply loop_post_trans|].
  intros it [->|Hit]%elem_of_cons; [|by apply C2].
  destruct (loop_post_incl _ _ _ P2). by eapply covered_mono.
Qed.
End Loop.

Lemma walk_post_skip m st : m ∈ processed_modules st → walk_post m st st.
Proof.
  intros Hin. split; [done|]. exists [], []. rewrite !app_nil_r.
  split_and!; try done; intros x Hx; by apply elem_of_nil in Hx.
Qed.

(** Entering [m]: the module is appended, then its members are looped over. *)
Lemma walk_post_enter m md st st' :
  h !! m = Some md → m ∉ processed_modules st →
  loop_post m (WalkState (processed_modules st ++ [m])
                         (processed_classes st) (action_state st)) st' →
  (∀ item, item ∈ mod_dict md → covered st' item) →
  walk_post m st st'.
Proof.
  intros Hm Hni (nm & nc & Em & Ec & Dm & Dc & Cl & Re & Ex & F) Cov.
  simpl in *. split; [rewrite Em; set_solver|].
  exists (m :: nm), nc. split_and!; try done.
  - by rewrite Em, <-app_assoc.
  - intros Hd. apply Dm. apply NoDup_app. split_and!; [done| |apply NoDup_singleton].
    intros x Hx ->%list_elem_of_singleton. done.
  - intros x [->|Hx]%elem_of_cons; [|by apply Cl]. split.
    + intros y (md0 & name & md' & Hm0 & Hi & Hpub & Hy & Hpre).
      assert (md0 = md) as -> by congruence.
      by apply (Cov _ Hi Hpub md').
    + intros c (md0 & name & Hm0 & Hi & Hpub).
      assert (md0 = md) as -> by congruence.
      by apply (Cov _ Hi Hpub).
  - intros x [->|Hx]%elem_of_cons; [done | by apply Re].
  - intros c Hc. destruct (Ex c Hc) as (x & Hx & He). exists x.
    split; [|done]. destruct Hx as [->|Hx]; set_solver.
Qed.

Lemma walk_sound fuel m st v st' :
  walk h action fuel m st = Some (Ok (v, st')) →
  walk_post m st st' ∧ walk_value m st v st'.
Proof.
  revert m st v st'. induction fuel as [|fuel IH]; intros m st v st'; [done|].
  simpl. case_bool_decide as Hin.
  { intros [= <- <-]. split; [by apply walk_post_skip | left; done]. }
  destruct (h !! m) as [md|] eqn:Hm; [|done].
  destruct (for_members _ _ _ _ _) as [[st2|e]|] eqn:Hloop; [|done..].
  intros [= <- <-].
  apply (for_members_post (walk h action fuel)) with (m := m) (md := md)
    in Hloop as [P C]; [|intros; by eapply IH|done|done].
  split; [by eapply walk_post_enter | right; done].
Qed.

(** *** A fresh traversal *)

Lemma closed_reach st x y :
  (∀ z, z ∈ processed_modules st → closed_in st z) →
  x ∈ processed_modules st → rtc (submodule h) x y →
  y ∈ processed_modules st.
Proof.
  intros Hcl Hx Hr. induction Hr as [x|x y z Hxy _ IH]; [done|].
  apply IH. by apply (Hcl x).
Qed.

Lemma fresh_walk fuel root a v st' :
  apply_to_scikits_algorithms h action fuel root None None a
    = Some (Ok (v, st')) →
  v = Some (processed_classes st') ∧
  NoDup (processed_modules st') ∧ NoDup (processed_classes st') ∧
  (∀ m, m ∈ processed_modules st' ↔ reachable h root m) ∧
  (∀ c, c ∈ processed_classes st' ↔ ∃ m, reachable h root m ∧ exposes h m c) ∧
  foldM action (acted (processed_classes st')) a = Ok (action_state st').
Proof.
  unfold apply_to_scikits_algorithms. simpl. intros Hw.
  apply walk_sound in Hw as [[Hroot P] V]. simpl in *.
  destruct P as (nm & nc & Em & Ec & Dm & Dc & Cl & Re & Ex & F).
  simpl in *. subst nm nc.
  destruct V as [[Hin _]|[_ ->]]; [by apply elem_of_nil in Hin|].
  assert (∀ m, m ∈ processed_modules st' ↔ reachable h root m) as Hreach.
  { intros m. split; [apply Re|]. intros Hr. by eapply closed_reach. }
  split_and!; try done.
  - apply Dm. constructor.
  - apply Dc. constructor.
  - intros c. split.
    + intros Hc. destruct (Ex c Hc) as (x & Hx & He). exists x.
      split; [by apply Hreach | done].
    + intros (m & Hr & He). apply Hreach in Hr. by apply (Cl m Hr).
Qed.

(** *** Termination *)

Lemma unprocessed_mono st st' :
  processed_modules st ⊆ processed_modules st' →
  size (unprocessed st') ≤ size (unprocessed st).
Proof.
  intros Hs. apply subseteq_size. unfold unprocessed.
  intros x [Hd Hn]%elem_of_difference. apply elem_of_difference.
  split; [done|]. intros Hx. apply Hn.
  apply elem_of_list_to_set. apply Hs. by apply elem_of_list_to_set in Hx.
Qed.

Lemma unprocessed_enter st m :
  is_Some (h !! m) → m ∉ processed_modules st →
  size (unprocessed (WalkState (processed_modules st ++ [m])
                               (processed_classes st) (action_state st)))
    < size (unprocessed st).
Proof.
  intros Hm%elem_of_dom Hni. apply subset_size. unfold unprocessed. simpl.
  split.
  - intros x [Hd Hn]%elem_of_difference. apply elem_of_difference.
    split; [done|]. intros Hx%elem_of_list_to_set.
    apply Hn, elem_of_list_to_set, elem_of_app. by left.
  - intros Hsub.
    assert (m ∈ dom h ∖ list_to_set (C:=gset nat) (processed_modules st)) as Hx.
    { apply elem_of_difference. split; [done|]. by rewrite elem_of_list_to_set. }
    apply Hsub, elem_of_difference in Hx as [_ Hn].
    apply Hn, elem_of_list_to_set, elem_of_app. right.
    by apply list_elem_of_singleton.
Qed.

Section LoopTerminates.
Variable rec : nat → walk_state A → walk_result (A:=A).
Variable bound : nat.
Hypothesis rec_post :
  ∀ m st v st', rec m st = Some (Ok (v, st')) → walk_post m st st'.
Hypothesis rec_total :
  ∀ m st, is_Some (h !! m) → size (unprocessed st) < bound →
    is_Some (rec m st).
Hypothesis closed : heap_closed h.

Lemma for_members_terminates m md items st :
  h !! m = Some md → items ⊆ mod_dict md →
  size (unprocessed st) < bound →
  is_Some (for_members h action rec items st).
Proof.
  intros Hm. revert st. induction items as [|item rest IH]; intros st Hsub Hlt.
  { by eexists. }
  assert (item ∈ mod_dict md) as Hi by (apply Hsub; left).
  assert (rest ⊆ mod_dict md) as Hsub' by (intros x Hx; apply Hsub; by right).
  simpl.
  assert (is_Some (visit_member h action rec item st)) as [r Hv].
  { destruct item as [name mem]. unfold visit_member.
    destruct (PyStr.startswith name "_"); [by eexists|].
    destruct mem as [c|m'|]; [| |by eexists].
    - destruct (bool_decide (c ∈ processed_classes st)); [by eexists|].
      destruct (is_algorithm c); [|by eexists].
      simpl. destruct (action c (action_state st)); by eexists.
    - destruct (heap_closed_lookup _ _ _ _ _ closed Hm Hi) as [md' Hm'].
      rewrite Hm'.
      destruct (PyStr.startswith _ _); [|by eexists].
      destruct (rec_total m' st) as [r Hr]; [by eexists|done|].
      rewrite Hr. destruct r as [[v st']|e]; by eexists. }
  rewrite Hv. destruct r as [st1|e]; [|by eexists].
  apply IH; [done|].
  destruct (visit_member_post rec rec_post m md _ _ _ Hm Hi Hv) as [P _].
  apply loop_post_incl in P as [Pm _].
  pose proof (unprocessed_mono _ _ Pm). lia.
Qed.
End LoopTerminates.

Lemma walk_terminates fuel m st :
  heap_closed h → is_Some (h !! m) → size (unprocessed st) < fuel →
  is_Some (walk h action fuel m st).
Proof.
  intros Hcl. revert m st.
  induction fuel as [|fuel IH]; intros m st Hm Hlt; [lia|].
  simpl. case_bool_decide as Hin; [by eexists|].
  destruct Hm as [md Hm]. rewrite Hm.
  pose proof (unprocessed_enter st m (mk_is_Some _ _ Hm) Hin) as Hdec.
  destruct (for_members_terminates (walk h action fuel) fuel) with
    (m := m) (md := md) (items := mod_dict md)
    (st := WalkState (processed_modules st ++ [m]) (processed_classes st)
                     (action_state st)) as [r Hr]; try done.
  - intros ???? Hw. by apply walk_sound in Hw as [? _].
  - lia.
  - rewrite Hr. destruct r; by eexists.
Qed.

(** *** Exceptions come from the action only *)

Lemma for_members_raise rec items st e :
  (∀ m st0, rec m st0 = Some (Raise e) → raised_by_action e) →
  for_members h action rec items st = Some (Raise e) → raised_by_action e.
Proof.
  intros Hrec. revert st. induction items as [|item rest IH]; intros st.
  { done. }
  simpl. destruct (visit_member h action rec item st) as [[st1|e1]|] eqn:Hv;
    [by apply IH| |done].
  intros [= ->]. revert Hv. destruct item as [name mem]. unfold visit_member.
  destruct (PyStr.startswith name "_"); [done|].
  destruct mem as [c|m'|]; [| |done].
  - destruct (bool_decide _); [done|]. destruct (is_algorithm c); [|done].
    simpl. destruct (action c (action_state st)) as [a1|e1] eqn:Ha; [done|].
    intros [= ->]. by exists c, (action_state st).
  - destruct (h !! m'); [|done]. destruct (PyStr.startswith _ _); [|done].
    destruct (rec m' st) as [[[v st']|e1]|] eqn:Hr; [done| |done].
    intros [= ->]. by eapply Hrec.
Qed.

Lemma walk_raise fuel m st e :
  walk h action fuel m st = Some (Raise e) → raised_by_action e.
Proof.
  revert m st. induction fuel as [|fuel IH]; intros m st; [done|].
  simpl. destruct (bool_decide _); [done|]. destruct (h !! m); [|done].
  destruct (for_members _ _ _ _ _) as [[st2|e1]|] eqn:Hl; [done| |done].
  intros [= ->]. eapply for_members_raise; [|exact Hl]. intros. by eapply IH.
Qed.

(** With an action that does not raise, enough fuel gives a value. *)
Lemma walk_returns fuel m st :
  heap_closed h → is_Some (h !! m) → size (unprocessed st) < fuel →
  (∀ c a, ∃ a', action c a = Ok a') →
  ∃ v st', walk h action fuel m st = Some (Ok (v, st')).
Proof.
  intros Hcl Hm Hlt Hok.
  destruct (walk_terminates fuel m st Hcl Hm Hlt) as [[[v st']|e] Hw].
  - by exists v, st'.
  - apply walk_raise in Hw as (c & a & Ha).
    destruct (Hok c a) as [a' Ha']. congruence.
Qed.

End WalkTheory.


(** ** Synthesis keeps what the class statement fixed *)

(** Two class objects that differ at most in patched docstrings. *)
Definition same_class (n n' : NodeClass) : Prop :=
  node_kind_of n' = node_kind_of n ∧ scikits_class n' = scikits_class n ∧
  node_name n' = node_name n ∧ node_doc n' = node_doc n.

Lemma same_class_refl n : same_class n n.
Proof. by repeat split. Qed.

Lemma same_class_trans n1 n2 n3 :
  same_class n1 n2 → same_class n2 n3 → same_class n1 n3.
Proof. unfold same_class. intros (?&?&?&?) (?&?&?&?). split_and!; congruence. Qed.

Lemma patch_method_doc_same c item n n' :
  patch_method_doc c item n = Ok n' →
  same_class n n' ∧ hasattr c item.2 = true.
Proof.
  destruct item as [mdp_name scikits_name]. unfold patch_method_doc, hasattr. simpl.
  destruct (getattr c scikits_name) as [[d|d]|e]; simpl; [| |done];
    intros [= <-]; split; try done; by repeat split.
Qed.

Lemma foldM_patch_same c methods_dict n n' :
  foldM (patch_method_doc c) methods_dict n = Ok n' →
  same_class n n' ∧ ∀ item, item ∈ methods_dict → hasattr c item.2 = true.
Proof.
  revert n. induction methods_dict as [|item rest IH]; intros n; simpl.
  { intros [= <-]. split; [apply same_class_refl|].
    intros item Hi. by apply elem_of_nil in Hi. }
  destruct (patch_method_doc c item n) as [n1|e] eqn:H1; simpl; [|done].
  intros H2. apply patch_method_doc_same in H1 as [S1 A1].
  apply IH in H2 as [S2 A2]. split; [by eapply same_class_trans|].
  intros it [->|Hi]%elem_of_cons; auto.
Qed.

Lemma patch_docs_same c methods_dict n n' :
  patch_docs c methods_dict n = Ok n' →
  same_class n n' ∧ ∀ item, item ∈ methods_dict → hasattr c item.2 = true.
Proof.
  unfold patch_docs.
  destruct (foldM _ _ _) as [n1|e] eqn:H1; simpl; [|done].
  apply foldM_patch_same in H1 as [S1 A1].
  destruct (getattr c "__init__") as [init|e]; simpl; [|done].
  destruct (attr_doc init); intros [= <-]; (split; [|done]); [done|].
  eapply same_class_trans; [exact S1 | by repeat split].
Qed.

(** A synthesised class wraps the class it was made from, carries the
    derived name, and that class has a [fit] attribute: the docstring loop
    looks [fit] up without a guard. *)
Lemma wrap_of_ok k c cls :
  wrap_of k c = Ok cls →
  node_kind_of cls = k ∧ scikits_class cls = c ∧
  node_name cls = cls_name c +:+ "ScikitsLearnNode" ∧
  hasattr c "fit" = true.
Proof.
  intros H.
  assert (∃ methods_dict, patch_docs c methods_dict (new_node_class k c) = Ok cls
            ∧ ("stop_training", "fit") ∈ methods_dict) as (md & Hp & Hin).
  { destruct k; simpl in H; unfold wrap_scikits_classifier,
      wrap_scikits_transformer, wrap_scikits_predictor in H;
      eexists; (split; [exact H|]); set_solver. }
  apply patch_docs_same in Hp as [(Hk & Hc & Hn & _) Ha].
  split_and!; try done. by apply (Ha _ Hin).
Qed.

(** ** The registry *)

Section RegistryTheory.
Variable ClassifierMixin : Class.

Local Abbreviation wrap := (wrap_scikits_algorithms ClassifierMixin).
Local Abbreviation route := (classify ClassifierMixin).

(** The if-chain of lines 360-368 calls the synthesiser that [classify]
    names and appends its result. *)
Lemma wrap_scikits_algorithms_routing c nodes_list :
  wrap c nodes_list =
    match route c with
    | Some k => let! node := wrap_of k c in Ok (nodes_list ++ [node])
    | None => Ok nodes_list
    end.
Proof.
  unfold wrap_scikits_algorithms, classify.
  destruct (excluded_name _); [done|].
  destruct (issubclass _ _); [done|].
  destruct (hasattr c "transform"); [done|].
  by destruct (hasattr c "predict").
Qed.

Lemma foldM_wrap_members calls l0 l :
  foldM wrap calls l0 = Ok l →
  ∀ cls, cls ∈ l →
    cls ∈ l0 ∨ ∃ c k, c ∈ calls ∧ route c = Some k ∧ wrap_of k c = Ok cls.
Proof.
  revert l0. induction calls as [|c calls IH]; intros l0; simpl.
  { intros [= <-] cls Hin. by left. }
  destruct (wrap c l0) as [l1|e] eqn:Hw; simpl; [|done].
  intros Hrest cls Hin. destruct (IH _ Hrest cls Hin) as [H1|(c' & k & Hc & Hk & Hwr)].
  - rewrite wrap_scikits_algorithms_routing in Hw.
    destruct (route c) as [k|] eqn:Hk.
    + destruct (wrap_of k c) as [node|e] eqn:Hwr; simpl in Hw; [|done].
      injection Hw as <-. apply elem_of_app in H1 as [H1|H1]; [by left|].
      apply list_elem_of_singleton in H1 as ->. right. exists c, k.
      split_and!; [left|done..].
    + injection Hw as <-. by left.
  - right. exists c', k. split_and!; [by right|done..].
Qed.

(** Where the entries of [scikits_nodes] come from. *)
Lemma scikits_nodes_members h fuel root nodes :
  scikits_nodes ClassifierMixin h fuel root = Some (Ok nodes) →
  ∀ cls, cls ∈ nodes →
    ∃ c k, (∃ m, reachable h root m ∧ exposes h m c) ∧
           is_algorithm c = true ∧
           route c = Some k ∧ wrap_of k c = Ok cls.
Proof.
  unfold scikits_nodes.
  destruct (apply_to_scikits_algorithms _ _ _ _ _ _ _) as [[[v st]|e]|] eqn:Hw;
    [|done..].
  intros [= <-] cls Hin.
  apply fresh_walk in Hw as (_ & _ & _ & _ & Hvis & Hfold).
  destruct (foldM_wrap_members _ _ _ Hfold cls Hin)
    as [H0|(c & k & Hc & Hk & Hwr)]; [by apply elem_of_nil in H0|].
  apply list_elem_of_filter in Hc as [Halg Hc].
  exists c, k. split_and!; try done. by apply Hvis.
Qed.

End RegistryTheory.

(** *** The dictionary built from the list *)

Lemma build_DICT__snoc nodes x :
  build_DICT_ (nodes ++ [x]) = <[node_name x := x]> (build_DICT_ nodes).
Proof. unfold build_DICT_. by rewrite foldl_app. Qed.

(** A key holds the last class of the list that has that name. *)
Lemma build_DICT__lookup nodes k cls :
  build_DICT_ nodes !! k = Some cls →
  ∃ l1 l2, nodes = l1 ++ cls :: l2 ∧ node_name cls = k ∧
           Forall (λ x, node_name x ≠ k) l2.
Proof.
  induction nodes as [|x nodes IH] using rev_ind; [done|].
  rewrite build_DICT__snoc. destruct (decide (node_name x = k)) as [<-|Hne].
  - rewrite lookup_insert_eq. intros [= <-]. exists nodes, []. by split_and!.
  - rewrite lookup_insert_ne by done. intros (l1 & l2 & -> & Hk & Hl)%IH.
    exists l1, (l2 ++ [x]). split_and!; [by rewrite <-app_assoc | done |].
    apply Forall_app. split; [done|]. by constructor.
Qed.

Lemma build_DICT__is_Some nodes cls :
  cls ∈ nodes → is_Some (build_DICT_ nodes !! node_name cls).
Proof.
  induction nodes as [|x nodes IH] using rev_ind.
  { intros H. by apply elem_of_nil in H. }
  rewrite build_DICT__snoc. intros [Hin|Hin]%elem_of_app;
    [|apply list_elem_of_singleton in Hin as ->].
  - destruct (decide (node_name x = node_name cls)) as [->|Hne].
    + rewrite lookup_insert_eq. by eexists.
    + rewrite lookup_insert_ne by done. by apply IH.
  - rewrite lookup_insert_eq. by eexists.
Qed.

Lemma NoDup_fmap_eq {X Y} (f : X → Y) (l : list X) a b :
  NoDup (f <$> l) → a ∈ l → b ∈ l → f a = f b → a = b.
Proof.
  induction l as [|x l IH]; simpl.
  { intros _ H. by apply elem_of_nil in H. }
  intros [Hx Hd]%NoDup_cons [->|Ha]%elem_of_cons [->|Hb]%elem_of_cons Hf; auto.
  - exfalso. apply Hx. rewrite Hf. by apply list_elem_of_fmap_2.
  - exfalso. apply Hx. rewrite <-Hf. by apply list_elem_of_fmap_2.
Qed.

Lemma build_DICT__unique nodes cls :
  NoDup (node_name <$> nodes) → cls ∈ nodes →
  build_DICT_ nodes !! node_name cls = Some cls.
Proof.
  intros Hd Hin. destruct (build_DICT__is_Some _ _ Hin) as [b Hb].
  rewrite Hb. f_equal.
  apply build_DICT__lookup in Hb as (l1 & l2 & -> & Hn & _).
  apply (NoDup_fmap_eq node_name (l1 ++ b :: l2)); [done| |done..].
  apply elem_of_app. right. by left.
Qed.

(** *** Entries of the list and of the dictionary *)

Lemma classify_not_excluded CM c k :
  classify CM c = Some k → excluded_name (cls_name c) = false.
Proof. unfold classify. by destruct (excluded_name _). Qed.

Lemma excluded_name_spec name :
  (∃ rest, name = "Base" +:+ rest) ∨ name = "LinearModel" →
  excluded_name name = true.
Proof.
  unfold excluded_name. intros [[rest ->]| ->].
  - by rewrite take_Base.
  - reflexivity.
Qed.

(** What is known of a class of [scikits_nodes]. *)
Lemma scikits_nodes_entry CM h fuel root nodes cls :
  scikits_nodes CM h fuel root = Some (Ok nodes) → cls ∈ nodes →
  let c := scikits_class cls in
  node_name cls = cls_name c +:+ "ScikitsLearnNode" ∧
  (∃ m, reachable h root m ∧ exposes h m c) ∧
  is_algorithm c = true ∧
  classify CM c = Some (node_kind_of cls) ∧
  wrap_of (node_kind_of cls) c = Ok cls.
Proof.
  intros Hn Hin.
  destruct (scikits_nodes_members _ _ _ _ _ Hn cls Hin)
    as (c & k & Hvis & Halg & Hk & Hw).
  destruct (wrap_of_ok _ _ _ Hw) as (<- & <- & Hname & _). simpl.
  by split_and!.
Qed.

Lemma scikits_nodes_one_per_class CM h fuel root nodes cls cls' :
  scikits_nodes CM h fuel root = Some (Ok nodes) →
  cls ∈ nodes → cls' ∈ nodes →
  scikits_class cls' = scikits_class cls → cls' = cls.
Proof.
  intros Hn Hin Hin' Heq.
  destruct (scikits_nodes_entry _ _ _ _ _ _ Hn Hin) as (_ & _ & _ & Hk & Hw).
  destruct (scikits_nodes_entry _ _ _ _ _ _ Hn Hin') as (_ & _ & _ & Hk' & Hw').
  simpl in *. rewrite Heq in Hk', Hw'.
  assert (node_kind_of cls' = node_kind_of cls) as Hkk by congruence.
  rewrite Hkk in Hw'. congruence.
Qed.

Lemma DICT__inv CM h fuel root d :
  DICT_ CM h fuel root = Some (Ok d) →
  ∃ nodes, scikits_nodes CM h fuel root = Some (Ok nodes) ∧ d = build_DICT_ nodes.
Proof.
  unfold DICT_. destruct (scikits_nodes _ _ _ _) as [[nodes|e]|]; [|done..].
  intros [= <-]. by exists nodes.
Qed.

(** Without a [fit] attribute no synthesiser succeeds. *)
Lemma wrap_of_without_fit k c :
  hasattr c "fit" = false → ∃ e, wrap_of k c = Raise e.
Proof.
  intros Hf. destruct (wrap_of k c) as [cls|e] eqn:Hw; [|by exists e].
  apply wrap_of_ok in Hw as (_ & _ & _ & Hfit). congruence.
Qed.

(** * The claims *)

(** ** Discovery walk *)

(** C1. On a namespace whose module references resolve, a traversal
    started with fresh lists and an action that does not raise returns,
    and whenever such a traversal returns: its value is the list of visited
    classes; that list has no duplicates and holds exactly the classes
    bound under a public name in a module the walk reaches, whether or not
    they pass the test; the action has run once on each visited class that
    has a fit, predict or transform attribute and whose module name does
    not end with an underscore, and on nothing else, however many modules
    bind a class: the final action state is the action folded over that
    duplicate-free list. *)
Theorem discovery_acts_once {A} (h : heap) (action : Class → A → result A)
    (root : nat) (a : A) :
  heap_closed h → is_Some (h !! root) →
  ((∀ c x, ∃ y, action c x = Ok y) →
   ∃ v st, apply_to_scikits_algorithms h action (S (size h)) root None None a
           = Some (Ok (v, st))) ∧
  (∀ fuel v st,
     apply_to_scikits_algorithms h action fuel root None None a
       = Some (Ok (v, st)) →
     let visited := processed_classes st in
     let calls := filter (λ c, is_algorithm c = true) visited in
     v = Some visited ∧
     NoDup visited ∧
     (∀ c, c ∈ visited ↔ ∃ m, reachable h root m ∧ exposes h m c) ∧
     NoDup calls ∧
     (∀ c, c ∈ calls ↔
           c ∈ visited ∧
           (hasattr c "fit" = true ∨ hasattr c "predict" = true
            ∨ hasattr c "transform" = true) ∧
           PyStr.endswith (cls_module c) "_" = false) ∧
     foldM action calls a = Ok (action_state st)).
Proof.
  intros Hcl Hroot. split.
  - intros Hok. apply walk_returns; [done..| |done]. unfold unprocessed. simpl.
    rewrite difference_empty_L, size_dom. lia.
  - intros fuel v st Hw.
    apply fresh_walk in Hw as (Hv & _ & Hd & _ & Hvis & Hfold).
    simpl. split_and!; try done.
    + by apply NoDup_filter.
    + intros c. rewrite list_elem_of_filter. unfold is_algorithm.
      rewrite andb_true_iff, !orb_true_iff, negb_true_iff. tauto.
Qed.

(** On the sample namespace SVC is bound by both modules of the cycle and
    is acted on once. *)
Lemma discovery_acts_once_witness :
  ∃ v st,
    apply_to_scikits_algorithms Sample.cyclic Sample.record
      (S (size Sample.cyclic)) 10 None None [] = Some (Ok (v, st)) ∧
    v = Some (processed_classes st) ∧
    NoDup (filter (λ c, is_algorithm c = true) (processed_classes st)) ∧
    action_state st = [Sample.SVC; Sample.PCA; Sample.BaseLib].
Proof.
  eexists _, _. split; [vm_compute; reflexivity|].
  assert (heap_closed Sample.cyclic) as Hcl
    by (apply (bool_decide_unpack _); vm_compute; exact I).
  assert (is_Some (Sample.cyclic !! 10)) as Hroot
    by (vm_compute; eexists; reflexivity).
  edestruct (proj2 (discovery_acts_once Sample.cyclic Sample.record 10 []
                      Hcl Hroot) (S (size Sample.cyclic)))
    as (Hv & _ & _ & Hd & _ & _); [vm_compute; reflexivity|].
  split_and!; [exact Hv | exact Hd | reflexivity].
Defined.

(** C2. On a finite namespace, cycles included, a traversal started with
    fresh lists returns once the fuel exceeds the number of modules.  The
    list of processed modules, to which a module is appended exactly when
    its members are about to be iterated, has no duplicates, and a call on
    a module already in it returns at once without touching the state. *)
Theorem discovery_terminates {A} (h : heap) (action : Class → A → result A)
    (root : nat) (a : A) :
  heap_closed h → is_Some (h !! root) →
  (∃ r, apply_to_scikits_algorithms h action (S (size h)) root None None a
        = Some r) ∧
  (∀ fuel v st,
     apply_to_scikits_algorithms h action fuel root None None a
       = Some (Ok (v, st)) → NoDup (processed_modules st)) ∧
  (∀ fuel m st, m ∈ processed_modules st →
     walk h action (S fuel) m st = Some (Ok (None, st))).
Proof.
  intros Hcl Hroot. split_and!.
  - apply walk_terminates; [done..|]. unfold unprocessed. simpl.
    rewrite difference_empty_L, size_dom. lia.
  - intros fuel v st Hw. by apply fresh_walk in Hw as (_ & Hd & _).
  - intros fuel m st Hin. simpl. by rewrite bool_decide_eq_true_2.
Qed.

Lemma discovery_terminates_witness :
  ∃ r, apply_to_scikits_algorithms Sample.cyclic Sample.record
         (S (size Sample.cyclic)) 10 None None [] = Some r.
Proof.
  refine (proj1 (discovery_terminates Sample.cyclic Sample.record 10 [] _ _)).
  - apply (bool_decide_unpack _). vm_compute. exact I.
  - vm_compute. eexists. reflexivity.
Defined.

(** C10. A member bound under a name that starts with an underscore is
    skipped whatever it is, class or module.  Hence a traversal started
    with fresh lists enters only modules that a chain of public bindings
    links to the root: a module without such a chain is never entered, and
    a class that no reached module binds publicly is neither visited nor
    acted on, wherever the qualified name of its module lies. *)
Theorem private_members_skipped {A} (h : heap) (action : Class → A → result A)
    (fuel root : nat) (a : A) v st :
  apply_to_scikits_algorithms h action fuel root None None a = Some (Ok (v, st)) →
  (∀ rec name mem st0,
     PyStr.startswith name "_" = true →
     visit_member h action rec (name, mem) st0 = Some (Ok st0)) ∧
  (∀ m, ¬ reachable h root m → m ∉ processed_modules st) ∧
  (∀ c, (∀ m, reachable h root m → ¬ exposes h m c) →
        (c ∉ processed_classes st) ∧
        (c ∉ filter (λ c, is_algorithm c = true) (processed_classes st))) ∧
  foldM action (filter (λ c, is_algorithm c = true) (processed_classes st)) a
    = Ok (action_state st).
Proof.
  intros Hw. apply fresh_walk in Hw as (_ & _ & _ & Hreach & Hvis & Hfold).
  split_and!; [| | |done].
  - intros rec name mem st0 Hpriv. unfold visit_member. by rewrite Hpriv.
  - intros m Hn Hin. by apply Hn, Hreach.
  - intros c Hn.
    assert (c ∉ processed_classes st) as Hc.
    { intros (m & Hr & He)%Hvis. by apply (Hn m). }
    split; [done|]. by intros [_ ?]%list_elem_of_filter.
Qed.

(** In the sample namespace module 12 is named inside the package but
    bound as "_impl": it is not entered and its class stays unvisited. *)
Lemma private_members_skipped_witness :
  ∃ v st,
    apply_to_scikits_algorithms Sample.cyclic Sample.record 5 10 None None []
      = Some (Ok (v, st)) ∧
    visit_member Sample.cyclic Sample.record (walk Sample.cyclic Sample.record 4)
      ("_impl", MModule 12) st = Some (Ok st) ∧
    (12 ∉ processed_modules st) ∧ (Sample.Hidden ∉ processed_classes st).
Proof.
  eexists _, _. split; [vm_compute; reflexivity|].
  edestruct (private_members_skipped Sample.cyclic Sample.record 5 10 [])
    as (Hskip & _ & _ & _); [vm_compute; reflexivity|].
  split_and!; [by apply Hskip | |].
  - apply (bool_decide_unpack _). vm_compute. exact I.
  - apply (bool_decide_unpack _). vm_compute. exact I.
Defined.

(** ** Registry *)

(** C3, as the code has it.  Every entry of the registry is keyed by the
    derived name of its class, the name of the wrapped class followed by
    ScikitsLearnNode; that class is the last one of the list with that
    name; it wraps one class, which the walk visited, which passed the
    test of the walk and the exclusion rule, and no other class of the
    list wraps the same class.  Every synthesised class finds some class
    of its name under its name.  When the wrapped classes have pairwise
    distinct names the derived names are pairwise distinct too and every
    synthesised class is the entry under its own name. *)
Theorem registry_entries (CM : Class) (h : heap) (fuel root : nat) nodes :
  scikits_nodes CM h fuel root = Some (Ok nodes) →
  let d := build_DICT_ nodes in
  DICT_ CM h fuel root = Some (Ok d) ∧
  (∀ k cls, d !! k = Some cls →
     let c := scikits_class cls in
     k = node_name cls ∧
     node_name cls = cls_name c +:+ "ScikitsLearnNode" ∧
     (∃ l1 l2, nodes = l1 ++ cls :: l2 ∧ Forall (λ x, node_name x ≠ k) l2) ∧
     (∃ m, reachable h root m ∧ exposes h m c) ∧
     is_algorithm c = true ∧
     excluded_name (cls_name c) = false ∧
     (∀ cls', cls' ∈ nodes → scikits_class cls' = c → cls' = cls)) ∧
  (∀ cls, cls ∈ nodes →
     ∃ cls', d !! node_name cls = Some cls' ∧ node_name cls' = node_name cls) ∧
  (NoDup ((λ cls, cls_name (scikits_class cls)) <$> nodes) →
     NoDup (node_name <$> nodes) ∧
     ∀ cls, cls ∈ nodes → d !! node_name cls = Some cls).
Proof.
  intros Hn. simpl. split_and!.
  - unfold DICT_. by rewrite Hn.
  - intros k cls Hk.
    apply build_DICT__lookup in Hk as (l1 & l2 & Hl & Hname & Hlast).
    assert (cls ∈ nodes) as Hin by (rewrite Hl; set_solver).
    destruct (scikits_nodes_entry _ _ _ _ _ _ Hn Hin) as (Hnm & Hvis & Halg & Hcl & _).
    split_and!; try done.
    + by exists l1, l2.
    + by eapply classify_not_excluded.
    + intros cls' Hin' Heq. by eapply scikits_nodes_one_per_class.
  - intros cls Hin. destruct (build_DICT__is_Some _ _ Hin) as [cls' Hk].
    exists cls'. split; [done|].
    by apply build_DICT__lookup in Hk as (_ & _ & _ & ? & _).
  - intros Hd.
    assert (NoDup (node_name <$> nodes)) as Hd'.
    { assert (node_name <$> nodes
              = (λ s, s +:+ "ScikitsLearnNode")
                  <$> ((λ cls, cls_name (scikits_class cls)) <$> nodes)) as ->.
      { rewrite <-list_fmap_compose. apply Forall_fmap_ext_1, Forall_forall.
        intros cls Hin. simpl.
        by destruct (scikits_nodes_entry _ _ _ _ _ _ Hn Hin) as (? & _). }
      apply NoDup_fmap_2; [|done]. intros s1 s2. apply append_inv_tail. }
    split; [done|]. intros cls Hin. by apply build_DICT__unique.
Qed.

(** In the sample namespace every entry of the registry is keyed by its
    own derived name. *)
Lemma registry_entries_witness :
  ∃ nodes,
    scikits_nodes Sample.ClassifierMixin Sample.cyclic 5 10 = Some (Ok nodes) ∧
    ∀ cls, cls ∈ nodes → build_DICT_ nodes !! node_name cls = Some cls.
Proof.
  eexists. split; [vm_compute; reflexivity|].
  edestruct (registry_entries Sample.ClassifierMixin Sample.cyclic 5 10)
    as (_ & _ & _ & Hu); [vm_compute; reflexivity|].
  apply Hu. apply (bool_decide_unpack _). vm_compute. exact I.
Defined.

(** C3 as stated fails: two wrapped classes of the same name yield two
    synthesised classes of the same derived name, and the registry keeps
    only the second under that name. *)
Lemma registry_names_clash :
  ∃ nodes a b,
    scikits_nodes Sample.ClassifierMixin Sample.clash 4 20 = Some (Ok nodes) ∧
    DICT_ Sample.ClassifierMixin Sample.clash 4 20
      = Some (Ok (build_DICT_ nodes)) ∧
    a ∈ nodes ∧ b ∈ nodes ∧ a ≠ b ∧ node_name a = node_name b ∧
    build_DICT_ nodes !! node_name a = Some b ∧
    build_DICT_ nodes !! node_name a ≠ Some a.
Proof.
  eexists _, _, _.
  match goal with
  | |- ?run = Some (Ok ?n) ∧ _ =>
      assert (run = Some (Ok n)) as Hn by (vm_compute; reflexivity)
  end.
  split; [exact Hn|].
  split; [unfold DICT_; rewrite Hn; reflexivity|].
  split; [left|]. split; [right; left|].
  split; [discriminate|]. split; [reflexivity|].
  split; [vm_compute; reflexivity|]. vm_compute. discriminate.
Qed.

(** C4, at a class that has [transform] and no [fit].  The class passes
    the test of the walk, is not excluded and is routed to the transformer
    synthesiser, whose docstring loop looks up [fit] without a guard: the
    call raises AttributeError, and so does the assembly of the registry
    over a namespace that holds the class. *)
Theorem transformer_without_fit_raises :
  is_algorithm Sample.Scaler = true ∧
  classify Sample.ClassifierMixin Sample.Scaler = Some TransformerNode ∧
  hasattr Sample.Scaler "fit" = false ∧
  is_trainable (new_node_class TransformerNode Sample.Scaler) = false ∧
  wrap_scikits_algorithms Sample.ClassifierMixin Sample.Scaler []
    = Raise (Exn AttributeError "fit") ∧
  DICT_ Sample.ClassifierMixin Sample.stateless 2 30
    = Some (Raise (Exn AttributeError "fit")).
Proof. split_and!; vm_compute; reflexivity. Qed.

(** C9. A class whose name starts with Base, or is LinearModel, leaves the
    list of synthesised classes as it was, whatever attributes it has, and
    no entry of a registry wraps such a class. *)
Theorem excluded_never_registered (CM : Class) (h : heap) (fuel root : nat) d :
  DICT_ CM h fuel root = Some (Ok d) →
  (∀ c nodes_list,
     (∃ rest, cls_name c = "Base" +:+ rest) ∨ cls_name c = "LinearModel" →
     wrap_scikits_algorithms CM c nodes_list = Ok nodes_list) ∧
  (∀ k cls, d !! k = Some cls →
     (∀ rest, cls_name (scikits_class cls) ≠ "Base" +:+ rest) ∧
     cls_name (scikits_class cls) ≠ "LinearModel").
Proof.
  intros (nodes & Hn & ->)%DICT__inv. split.
  - intros c nodes_list Hex. unfold wrap_scikits_algorithms.
    by rewrite (excluded_name_spec _ Hex).
  - intros k cls Hk.
    apply build_DICT__lookup in Hk as (l1 & l2 & Hl & _ & _).
    assert (cls ∈ nodes) as Hin by (rewrite Hl; set_solver).
    destruct (scikits_nodes_entry _ _ _ _ _ _ Hn Hin) as (_ & _ & _ & Hcl & _).
    apply classify_not_excluded in Hcl. simpl in Hcl.
    split.
    + intros rest Heq. rewrite excluded_name_spec in Hcl; [done|]. left. by exists rest.
    + intros Heq. rewrite excluded_name_spec in Hcl; [done|]. by right.
Qed.

(** BaseLibSVM has fit and predict and is visited, yet it is not in the
    registry of the sample namespace. *)
Lemma excluded_never_registered_witness :
  ∃ nodes,
    scikits_nodes Sample.ClassifierMixin Sample.cyclic 5 10 = Some (Ok nodes) ∧
    DICT_ Sample.ClassifierMixin Sample.cyclic 5 10
      = Some (Ok (build_DICT_ nodes)) ∧
    is_algorithm Sample.BaseLib = true ∧
    wrap_scikits_algorithms Sample.ClassifierMixin Sample.BaseLib [] = Ok [] ∧
    build_DICT_ nodes !! "BaseLibSVMScikitsLearnNode" = None.
Proof.
  eexists.
  match goal with
  | |- ?run = Some (Ok ?n) ∧ _ =>
      assert (run = Some (Ok n)) as Hn by (vm_compute; reflexivity)
  end.
  assert (DICT_ Sample.ClassifierMixin Sample.cyclic 5 10
          = Some (Ok (build_DICT_ _))) as HD
    by (unfold DICT_; rewrite Hn; reflexivity).
  split; [exact Hn|]. split; [exact HD|].
  split; [vm_compute; reflexivity|]. split; [|vm_compute; reflexivity].
  apply (excluded_never_registered _ _ _ _ _ HD). left. by exists "LibSVM".
Defined.

(** ** Node classes and their instances *)

(** C5. Whatever the node class, constructing an instance with an output
    dimensionality that is not None raises ScikitsException, a proper
    subclass of mdp.NodeException, and leaves the world as it was: neither
    the constructor of the base class nor that of the wrapped class ran. *)
Theorem output_dim_rejected {Alg Kwargs Base W : Type}
    (construct : Class → Kwargs → W → result Alg * W)
    (base_init : node_kind → option nat → option nat → option string → W
                 → result Base * W)
    (cls : NodeClass) (input_dim : option nat) (output_dim : nat)
    (dtype : option string) (kwargs : Kwargs) (w : W) :
  ScikitsNode_init construct base_init cls input_dim (Some output_dim) dtype
    kwargs w
  = (Raise (Exn ScikitsException _OUTPUTDIM_ERROR), w) ∧
  exn_issubclass ScikitsException NodeException = true ∧
  ScikitsException ≠ NodeException.
Proof. by split_and!. Qed.

(** With the counting stub: no instance is constructed when an output
    dimensionality is given, one is constructed when none is. *)
Example output_dim_rejected_counted :
  let w0 := {| Sample.constructed := 0; Sample.seen := [] |} in
  let cls := new_node_class PredictorNode Sample.Lasso in
  Sample.constructed
    (ScikitsNode_init Sample.construct Sample.base_init cls None (Some 0) None
       [] w0).2 = 0 ∧
  Sample.constructed
    (ScikitsNode_init Sample.construct Sample.base_init cls None None None
       [] w0).2 = 1.
Proof. split; reflexivity. Qed.

(** C6. For an instance of a class made by the classifier synthesiser, if
    the wrapped predict answers an N-row batch with a flat array of length
    N, the label operation returns the same elements with shape (N, 1). *)
Theorem label_is_column {T Alg Base W : Type}
    (alg_predict : Alg → ndarray T → W → result (ndarray T) * W)
    (c : Class) (cls : NodeClass) (self : @Node Alg Base)
    (x y : ndarray T) (w w' : W) (N : nat) (cols : list nat) :
  wrap_scikits_classifier c = Ok cls → node_class self = cls →
  shape x = N :: cols →
  alg_predict (scikits_alg self) x w = (Ok y, w') → shape y = [N] →
  ScikitsNode_label alg_predict self x w = (Ok (NdArray [N; 1] (data y)), w').
Proof.
  intros Hw Hcls _ Hp Hy.
  apply (wrap_of_ok ClassifierNode) in Hw as (Hk & _).
  unfold ScikitsNode_label, classifier_label. rewrite Hcls, Hk, Hp.
  unfold index_all_newaxis. by rewrite Hy.
Qed.

Lemma label_is_column_witness :
  ∃ cls,
    wrap_scikits_classifier Sample.SVC = Ok cls ∧
    (ScikitsNode_label Sample.predict (Sample.node_of cls) Sample.batch
       {| Sample.constructed := 1; Sample.seen := [] |}).1
    = Ok (NdArray [3; 1] [1; 1; 1]).
Proof.
  eexists. split; [vm_compute; reflexivity|].
  refine (f_equal fst
    (label_is_column Sample.predict Sample.SVC _ (Sample.node_of _)
       Sample.batch (NdArray [3] [1; 1; 1])
       {| Sample.constructed := 1; Sample.seen := [] |}
       {| Sample.constructed := 1; Sample.seen := [Sample.batch] |}
       3 [2] _ _ _ _ _)); vm_compute; reflexivity.
Defined.

(** C7. For an instance of a class made by the transformer synthesiser,
    execute hands its input to the wrapped transform and returns what that
    returns, result and world, whatever transform does. *)
Theorem execute_forwards {T Alg Base W : Type}
    (alg_predict alg_transform : Alg → ndarray T → W → result (ndarray T) * W)
    (base_execute : @Node Alg Base → ndarray T → W → result (ndarray T) * W)
    (c : Class) (cls : NodeClass) (self : @Node Alg Base)
    (x : ndarray T) (w : W) :
  wrap_scikits_transformer c = Ok cls → node_class self = cls →
  ScikitsNode_execute alg_predict alg_transform base_execute self x w
  = alg_transform (scikits_alg self) x w.
Proof.
  intros Hw Hcls. apply (wrap_of_ok TransformerNode) in Hw as (Hk & _).
  unfold ScikitsNode_execute, transformer_execute. by rewrite Hcls, Hk.
Qed.

(** The logging stub sees exactly the batch handed to execute. *)
Lemma execute_forwards_witness :
  ∃ cls,
    wrap_scikits_transformer Sample.PCA = Ok cls ∧
    ScikitsNode_execute Sample.predict Sample.transform
      (λ _ x w, (Ok x, w)) (Sample.node_of cls) Sample.batch
      {| Sample.constructed := 1; Sample.seen := [] |}
    = (Ok (NdArray [3; 2] [2; 4; 6; 8; 10; 12]),
       {| Sample.constructed := 1; Sample.seen := [Sample.batch] |}).
Proof.
  eexists. split; [vm_compute; reflexivity|].
  etrans.
  - eapply (execute_forwards Sample.predict Sample.transform _ Sample.PCA);
      vm_compute; reflexivity.
  - vm_compute; reflexivity.
Defined.

(** C8. [is_trainable] takes the node class and no instance.  For every
    wrapped class, with a fit attribute or without, the class that the
    class statement of a synthesiser creates answers true exactly when the
    wrapped class has a fit attribute; so does every class that differs
    from it in patched docstrings only, and so does the class that the
    synthesiser returns. *)
Theorem trainable_iff_fit (k : node_kind) (c : Class) :
  is_trainable (new_node_class k c) = hasattr c "fit" ∧
  (is_trainable (new_node_class k c) = true ↔ hasattr c "fit" = true) ∧
  (∀ cls, same_class (new_node_class k c) cls →
          is_trainable cls = hasattr c "fit") ∧
  (∀ cls, wrap_of k c = Ok cls →
          is_trainable cls = hasattr c "fit" ∧
          (is_trainable cls = true ↔ hasattr c "fit" = true)).
Proof.
  split_and!.
  - reflexivity.
  - reflexivity.
  - intros cls (_ & Hc & _). unfold is_trainable. by rewrite Hc.
  - intros cls (_ & Hc & _)%wrap_of_ok. unfold is_trainable. by rewrite Hc.
Qed.

(** The class statement over a class without fit gives a class that is
    not trainable; over a class with fit, one that is. *)
Lemma trainable_iff_fit_witness :
  hasattr Sample.Scaler "fit" = false ∧
  is_trainable (new_node_class TransformerNode Sample.Scaler) = false ∧
  is_trainable (new_node_class PredictorNode Sample.Lasso) = true.
Proof.
  split; [reflexivity|]. split.
  - rewrite (proj1 (trainable_iff_fit TransformerNode Sample.Scaler)).
    reflexivity.
  - rewrite (proj1 (trainable_iff_fit PredictorNode Sample.Lasso)).
    reflexivity.
Defined.


(** * Further properties of the code *)

(** ** The walk on lists of the caller *)

Section WalkMore.
Context {A : Type}.
Variable h : heap.
Variable action : Class → A → result A.

Implicit Types st : walk_state A.

Lemma extended_refl st : extended action st st.
Proof.
  exists [], []. rewrite !app_nil_r.
  split_and!; try done; try constructor; intros x Hx; by apply elem_of_nil in Hx.
Qed.

Lemma extended_trans st1 st2 st3 :
  extended action st1 st2 → extended action st2 st3 → extended action st1 st3.
Proof.
  intros (nm1 & nc1 & Em1 & Ec1 & Dm1 & Dc1 & Fm1 & Fc1 & F1)
         (nm2 & nc2 & Em2 & Ec2 & Dm2 & Dc2 & Fm2 & Fc2 & F2).
  exists (nm1 ++ nm2), (nc1 ++ nc2). split_and!.
  - by rewrite Em2, Em1, app_assoc.
  - by rewrite Ec2, Ec1, app_assoc.
  - apply NoDup_app. split_and!; [done| |done].
    intros x H1 H2. apply (Fm2 x H2). rewrite Em1. apply elem_of_app. by right.
  - apply NoDup_app. split_and!; [done| |done].
    intros x H1 H2. apply (Fc2 x H2). rewrite Ec1. apply elem_of_app. by right.
  - intros x [Hx|Hx]%elem_of_app; [by apply Fm1|].
    intros Hin. apply (Fm2 x Hx). rewrite Em1. apply elem_of_app. by left.
  - intros c [Hc|Hc]%elem_of_app; [by apply Fc1|].
    intros Hin. apply (Fc2 c Hc). rewrite Ec1. apply elem_of_app. by left.
  - unfold acted. rewrite filter_app. by eapply foldM_ok_app.
Qed.

Lemma extended_new_class st c a :
  c ∉ processed_classes st →
  foldM action (acted [c]) (action_state st) = Ok a →
  extended action st (WalkState (processed_modules st)
                                (processed_classes st ++ [c]) a).
Proof.
  intros Hni Hf. exists [], [c]. simpl. rewrite app_nil_r.
  split_and!; try done.
  - constructor.
  - apply NoDup_singleton.
  - intros x Hx. by apply elem_of_nil in Hx.
  - by intros x ->%list_elem_of_singleton.
Qed.

Lemma for_members_extended rec items st st' :
  (∀ m st0 v st0', rec m st0 = Some (Ok (v, st0')) → extended action st0 st0') →
  for_members h action rec items st = Some (Ok st') → extended action st st'.
Proof.
  intros Hrec. revert st. induction items as [|item rest IH]; intros st.
  { intros [= <-]. apply extended_refl. }
  simpl. destruct (visit_member h action rec item st) as [[st1|e]|] eqn:Hv;
    [|done..].
  intros Hrest. eapply extended_trans; [|by apply IH]. clear Hrest IH.
  revert Hv. destruct item as [name mem]. unfold visit_member.
  destruct (PyStr.startswith name "_").
  { intros [= <-]. apply extended_refl. }
  destruct mem as [c|m'|].
  - case_bool_decide as Hc.
    { intros [= <-]. apply extended_refl. }
    simpl. destruct (is_algorithm c) eqn:Halg.
    + destruct (action c (action_state st)) as [a|e] eqn:Ha; intros [= <-].
      apply extended_new_class; [done|].
      rewrite acted_singleton, Halg. simpl. by rewrite Ha.
    + intros [= <-]. destruct st as [pm pc a]. simpl in *.
      apply (extended_new_class (WalkState pm pc a) c a); [done|].
      by rewrite acted_singleton, Halg.
  - destruct (h !! m'); [|done]. destruct (PyStr.startswith _ _).
    + destruct (rec m' st) as [[[v st'']|e]|] eqn:Hr; intros [= <-].
      by eapply Hrec.
    + intros [= <-]. apply extended_refl.
  - intros [= <-]. apply extended_refl.
Qed.

Lemma walk_extended fuel m st v st' :
  walk h action fuel m st = Some (Ok (v, st')) → extended action st st'.
Proof.
  revert m st v st'. induction fuel as [|fuel IH]; intros m st v st'; [done|].
  simpl. case_bool_decide as Hin.
  { intros [= <- <-]. apply extended_refl. }
  destruct (h !! m) as [md|]; [|done].
  destruct (for_members _ _ _ _ _) as [[st2|e]|] eqn:Hloop; [|done..].
  intros [= <- <-].
  apply for_members_extended in Hloop; [|intros; by eapply IH].
  eapply extended_trans; [|exact Hloop].
  exists [m], []. simpl. rewrite app_nil_r. split_and!; try done.
  - apply NoDup_singleton.
  - constructor.
  - by intros x ->%list_elem_of_singleton.
  - intros x Hx. by apply elem_of_nil in Hx.
Qed.

(** X1. Whatever lists the caller passes in, a call that returns has only
    appended to them: the modules and classes appended are pairwise
    distinct and were in neither list before, and the action has run, in
    the order of appending, on exactly the appended classes that pass the
    test.  A class the caller had put in [processed_classes] is never
    handed to the action. *)
Theorem walk_appends_only (fuel m : nat) st v st' :
  walk h action fuel m st = Some (Ok (v, st')) →
  ∃ newm newc,
    processed_modules st' = processed_modules st ++ newm ∧
    processed_classes st' = processed_classes st ++ newc ∧
    NoDup newm ∧ NoDup newc ∧
    (∀ x, x ∈ newm → x ∉ processed_modules st) ∧
    (∀ c, c ∈ newc → c ∉ processed_classes st) ∧
    foldM action (filter (λ c, is_algorithm c = true) newc) (action_state st)
      = Ok (action_state st').
Proof. apply walk_extended. Qed.

Lemma for_members_raise_algorithm rec items st e :
  (∀ m st0, rec m st0 = Some (Raise e) →
     ∃ c a, is_algorithm c = true ∧ action c a = Raise e) →
  for_members h action rec items st = Some (Raise e) →
  ∃ c a, is_algorithm c = true ∧ action c a = Raise e.
Proof.
  intros Hrec. revert st. induction items as [|item rest IH]; intros st.
  { done. }
  simpl. destruct (visit_member h action rec item st) as [[st1|e1]|] eqn:Hv;
    [by apply IH| |done].
  intros [= ->]. revert Hv. destruct item as [name mem]. unfold visit_member.
  destruct (PyStr.startswith name "_"); [done|].
  destruct mem as [c|m'|]; [| |done].
  - destruct (bool_decide _); [done|]. destruct (is_algorithm c) eqn:Halg; [|done].
    simpl. destruct (action c (action_state st)) as [a1|e1] eqn:Ha; [done|].
    intros [= ->]. by exists c, (action_state st).
  - destruct (h !! m'); [|done]. destruct (PyStr.startswith _ _); [|done].
    destruct (rec m' st) as [[[v st']|e1]|] eqn:Hr; [done| |done].
    intros [= ->]. by eapply Hrec.
Qed.

Lemma walk_raise_algorithm (fuel m : nat) st e :
  walk h action fuel m st = Some (Raise e) →
  ∃ c a, is_algorithm c = true ∧ action c a = Raise e.
Proof.
  revert m st. induction fuel as [|fuel IH]; intros m st; [done|].
  simpl. destruct (bool_decide _); [done|]. destruct (h !! m); [|done].
  destruct (for_members _ _ _ _ _) as [[st2|e1]|] eqn:Hl; [done| |done].
  intros [= ->]. eapply for_members_raise_algorithm; [|exact Hl].
  intros. by eapply IH.
Qed.

(** X2. The walk raises nothing of its own: an exception that leaves it
    was raised by the action, on a class that passed the test. *)
Theorem walk_raises_only_from_action (fuel m : nat) st e :
  walk h action fuel m st = Some (Raise e) →
  ∃ c a, is_algorithm c = true ∧ action c a = Raise e.
Proof. apply walk_raise_algorithm. Qed.

Lemma walk_enters_first fuel m st v st' :
  walk h action fuel m st = Some (Ok (v, st')) → m ∉ processed_modules st →
  ∃ rest, processed_modules st' = processed_modules st ++ m :: rest.
Proof.
  destruct fuel as [|fuel]; [done|]. simpl. intros Hw Hni.
  rewrite bool_decide_eq_false_2 in Hw by done.
  destruct (h !! m) as [md|]; [|done].
  destruct (for_members _ _ _ _ _) as [[st2|e]|] eqn:Hloop; [|done..].
  injection Hw as <- <-.
  apply for_members_extended in Hloop as (nm & nc & Em & _);
    [|intros; by eapply walk_extended].
  simpl in Em. exists nm. by rewrite Em, <-app_assoc.
Qed.

(** X3. A traversal started with fresh lists enters the module it was
    given first, whatever that module is called.  Every other module it
    enters is one of the heap whose name starts with the string
    scikits.learn, and every module that an entered module binds under a
    public name and whose name starts with that string is entered.  The
    test is a bare string prefix: nothing asks for a dot or for the end of
    the name after it. *)
Theorem walk_stays_in_package (fuel root : nat) (a : A) v st :
  apply_to_scikits_algorithms h action fuel root None None a
    = Some (Ok (v, st)) →
  ∃ rest,
    processed_modules st = root :: rest ∧
    (∀ m, m ∈ rest →
       ∃ md, h !! m = Some md ∧
             PyStr.startswith (mod_name md) "scikits.learn" = true) ∧
    (∀ m md name m' md',
       m ∈ processed_modules st →
       h !! m = Some md → (name, MModule m') ∈ mod_dict md →
       PyStr.startswith name "_" = false →
       h !! m' = Some md' →
       PyStr.startswith (mod_name md') "scikits.learn" = true →
       m' ∈ processed_modules st).
Proof.
  intros Hw. pose proof Hw as Hf.
  apply fresh_walk in Hf as (_ & Hd & _ & Hreach & _).
  unfold apply_to_scikits_algorithms in Hw.
  apply walk_enters_first in Hw as [rest Hrest]; [|by intros ?%elem_of_nil].
  simpl in Hrest. exists rest. split_and!; [done| |].
  - intros m Hm. rewrite Hrest in Hd. apply NoDup_cons in Hd as [Hroot _].
    assert (reachable h root m) as Hr.
    { apply Hreach. rewrite Hrest. by right. }
    apply rtc_inv_r in Hr as [->|(y & _ & Hy)]; [done|].
    destruct Hy as (_ & _ & md' & _ & _ & _ & Hm' & Hpre). by exists md'.
  - intros m md name m' md' Hin Hm Hb Hpub Hm' Hpre.
    apply Hreach. eapply rtc_r; [by apply Hreach|].
    by exists md, name, md'.
Qed.

End WalkMore.

(** The caller lists SVC as processed: it is not acted on again. *)
Lemma walk_appends_only_witness :
  ∃ v st',
    walk Sample.cyclic Sample.record 5 10 (WalkState [] [Sample.SVC] [])
      = Some (Ok (v, st')) ∧
    action_state st' = [Sample.PCA; Sample.BaseLib] ∧
    ∃ newc, processed_classes st' = [Sample.SVC] ++ newc ∧ NoDup newc.
Proof.
  eexists _, _. split; [vm_compute; reflexivity|]. split; [reflexivity|].
  edestruct (walk_appends_only Sample.cyclic Sample.record 5 10
               (WalkState [] [Sample.SVC] []))
    as (newm & newc & _ & Ec & _ & Dc & _); [vm_compute; reflexivity|].
  exists newc. split; [exact Ec | exact Dc].
Defined.

Lemma walk_raises_only_from_action_witness :
  walk Sample.cyclic Fixtures.picky 5 10 (WalkState [] [] [])
    = Some (Raise (Exn Exception "no PCA")) ∧
  ∃ c a, is_algorithm c = true ∧
         Fixtures.picky c a = Raise (Exn Exception "no PCA").
Proof.
  split; [vm_compute; reflexivity|].
  apply (walk_raises_only_from_action Sample.cyclic Fixtures.picky 5 10
           (WalkState [] [] [])).
  vm_compute; reflexivity.
Defined.

(** A module named scikits.learnx passes the test and is entered. *)
Lemma walk_stays_in_package_witness :
  ∃ v st,
    apply_to_scikits_algorithms Fixtures.lookalike Sample.record 3 50 None None []
      = Some (Ok (v, st)) ∧
    processed_modules st = [50; 51] ∧
    action_state st = [Sample.Lasso] ∧
    ∃ rest,
      processed_modules st = 50 :: rest ∧
      ∀ m, m ∈ rest →
        ∃ md, Fixtures.lookalike !! m = Some md ∧
              PyStr.startswith (mod_name md) "scikits.learn" = true.
Proof.
  eexists _, _. split; [vm_compute; reflexivity|].
  split; [reflexivity|]. split; [reflexivity|].
  edestruct (walk_stays_in_package Fixtures.lookalike Sample.record 3 50 [])
    as (rest & Hrest & Hnamed & _); [vm_compute; reflexivity|].
  exists rest. split; [exact Hrest | exact Hnamed].
Defined.

(** ** When synthesis succeeds *)

Lemma hasattr_getattr c name :
  hasattr c name = true ↔ ∃ a, getattr c name = Ok a.
Proof.
  unfold hasattr. destruct (getattr c name) as [a|e]; split; try done.
  - by exists a.
  - by intros [a Ha].
Qed.

Lemma getattr_raise c name e :
  getattr c name = Raise e → hasattr c name = false ∧ e = Exn AttributeError name.
Proof.
  unfold hasattr, getattr. destruct (assoc name (cls_attrs c)); [done|].
  by intros [= <-].
Qed.

Lemma foldM_patch_ok c methods_dict n :
  (∀ item, item ∈ methods_dict → hasattr c item.2 = true) →
  ∃ n', foldM (patch_method_doc c) methods_dict n = Ok n'.
Proof.
  revert n. induction methods_dict as [|[mdp_name scikits_name] rest IH];
    intros n Hall; simpl.
  { by exists n. }
  destruct (proj1 (hasattr_getattr c scikits_name)) as [a Ha].
  { apply (Hall (mdp_name, scikits_name)). by left. }
  rewrite Ha. simpl. destruct a; simpl; apply IH; intros item Hi; apply Hall; by right.
Qed.

Lemma foldM_patch_raise c methods_dict n e :
  foldM (patch_method_doc c) methods_dict n = Raise e →
  ∃ item, item ∈ methods_dict ∧ hasattr c item.2 = false ∧
          e = Exn AttributeError item.2.
Proof.
  revert n. induction methods_dict as [|item rest IH]; intros n; simpl; [done|].
  destruct (patch_method_doc c item n) as [n1|e1] eqn:H1; simpl.
  - intros (it & Hi & Hit)%IH. exists it. split; [by right | done].
  - intros [= ->]. exists item. split; [by left|].
    destruct item as [mdp_name scikits_name]. unfold patch_method_doc in H1.
    simpl in *. destruct (getattr c scikits_name) as [[d|d]|e1] eqn:Hg;
      simpl in H1; [done..|].
    injection H1 as ->. by apply getattr_raise.
Qed.

Lemma patch_docs_ok c methods_dict n :
  (∀ item, item ∈ methods_dict → hasattr c item.2 = true) →
  hasattr c "__init__" = true →
  ∃ n', patch_docs c methods_dict n = Ok n'.
Proof.
  intros Hall Hinit. unfold patch_docs.
  destruct (foldM_patch_ok c methods_dict n Hall) as [n1 ->]. simpl.
  apply hasattr_getattr in Hinit as [init ->]. simpl.
  destruct (attr_doc init); by eexists.
Qed.

Lemma patch_docs_raise c methods_dict n e :
  patch_docs c methods_dict n = Raise e →
  ∃ name, (name ∈ methods_dict.*2 ∨ name = "__init__") ∧
          hasattr c name = false ∧ e = Exn AttributeError name.
Proof.
  unfold patch_docs.
  destruct (foldM _ _ _) as [n1|e1] eqn:H1; simpl.
  - destruct (getattr c "__init__") as [init|e1] eqn:Hg; simpl.
    + by destruct (attr_doc init).
    + intros [= ->]. exists "__init__". split; [by right|]. by apply getattr_raise.
  - intros [= ->]. apply foldM_patch_raise in H1 as (item & Hi & Hh & He).
    exists item.2. split; [left; by apply list_elem_of_fmap_2 | done].
Qed.

(** The names each synthesiser looks up: the required ones, and
    predict_proba only behind its guard. *)
Lemma wrap_of_methods k c :
  ∃ methods_dict,
    wrap_of k c = patch_docs c methods_dict (new_node_class k c) ∧
    methods_dict.*2
    = required_attrs k
      ++ (if bool_decide (k = ClassifierNode) && hasattr c "predict_proba"
          then ["predict_proba"] else []).
Proof.
  destruct k; simpl; unfold wrap_scikits_classifier, wrap_scikits_transformer,
    wrap_scikits_predictor; eexists; (split; [reflexivity|]); simpl.
  - by destruct (hasattr c "predict_proba").
  - done.
  - done.
Qed.

Lemma required_has_init k : "__init__" ∈ required_attrs k.
Proof. destruct k; by left. Qed.

Lemma wrap_of_succeeds k c :
  (∀ name, name ∈ required_attrs k → hasattr c name = true) →
  ∃ cls, wrap_of k c = Ok cls.
Proof.
  intros Hreq. destruct (wrap_of_methods k c) as (md & -> & Hmd).
  apply patch_docs_ok; [|apply Hreq, required_has_init].
  intros item Hi. apply (list_elem_of_fmap_2 snd) in Hi. rewrite Hmd in Hi.
  apply elem_of_app in Hi as [Hi|Hi]; [by apply Hreq|].
  destruct (bool_decide _ && hasattr c "predict_proba") eqn:Hg.
  - apply list_elem_of_singleton in Hi. rewrite Hi.
    by apply andb_true_iff in Hg as [_ ?].
  - by apply elem_of_nil in Hi.
Qed.

Lemma wrap_of_raise k c e :
  wrap_of k c = Raise e →
  ∃ name, name ∈ required_attrs k ∧ hasattr c name = false ∧
          e = Exn AttributeError name.
Proof.
  destruct (wrap_of_methods k c) as (md & -> & Hmd).
  intros (name & Hn & Hh & He)%patch_docs_raise. exists name.
  split; [|done]. destruct Hn as [Hn| ->]; [|apply required_has_init].
  rewrite Hmd in Hn. apply elem_of_app in Hn as [Hn|Hn]; [done|].
  destruct (bool_decide _ && hasattr c "predict_proba") eqn:Hg.
  - apply list_elem_of_singleton in Hn. subst name.
    apply andb_true_iff in Hg as [_ Hg]. congruence.
  - by apply elem_of_nil in Hn.
Qed.

(** X4. A synthesiser returns a class exactly when the wrapped class has
    every attribute its docstring code looks up: __init__, fit and predict
    for the classifier and the predictor, __init__, fit and transform for
    the transformer.  Otherwise it raises AttributeError for one of these
    names that the class lacks, and nothing else. *)
Theorem synthesis_succeeds_iff (k : node_kind) (c : Class) :
  ((∃ cls, wrap_of k c = Ok cls) ↔
   ∀ name, name ∈ required_attrs k → hasattr c name = true) ∧
  (∀ e, wrap_of k c = Raise e →
     ∃ name, name ∈ required_attrs k ∧ hasattr c name = false ∧
             e = Exn AttributeError name).
Proof.
  split; [split|].
  - intros [cls Hw] name Hn.
    destruct (hasattr c name) eqn:Hh; [done|]. exfalso.
    destruct (wrap_of_methods k c) as (md & Hu & Hmd). rewrite Hu in Hw.
    apply patch_docs_same in Hw as [_ Hall].
    assert (name ∈ md.*2) as Hin by (rewrite Hmd; apply elem_of_app; by left).
    apply list_elem_of_fmap in Hin as (item & -> & Hi).
    specialize (Hall item Hi). congruence.
  - apply wrap_of_succeeds.
  - apply wrap_of_raise.
Qed.

(** ** The docstring of [__init__] *)

Lemma foldM_patch_other_key c methods_dict key n n' :
  foldM (patch_method_doc c) methods_dict n = Ok n' →
  (∀ item, item ∈ methods_dict → item.1 ≠ key) →
  method_doc n' key = method_doc n key.
Proof.
  revert n. induction methods_dict as [|[mdp_name scikits_name] rest IH];
    intros n; simpl.
  { by intros [= <-]. }
  destruct (getattr c scikits_name) as [a|e]; simpl; [|done].
  intros Hf Hne.
  assert (mdp_name ≠ key) as Hk by (apply (Hne (mdp_name, scikits_name)); by left).
  assert (∀ item, item ∈ rest → item.1 ≠ key) as Hne'
    by (intros item Hi; apply Hne; by right).
  destruct a as [d|d]; simpl in Hf; rewrite (IH _ Hf Hne'); [|done].
  unfold method_doc. simpl. by rewrite decide_False by done.
Qed.

Lemma wrap_of_init_first k c :
  ∃ rest,
    wrap_of k c
    = patch_docs c (("__init__", "__init__") :: rest) (new_node_class k c) ∧
    ∀ item, item ∈ rest → item.1 ≠ "__init__".
Proof.
  destruct k; simpl; unfold wrap_scikits_classifier, wrap_scikits_transformer,
    wrap_scikits_predictor; eexists; (split; [reflexivity|]);
    intros item Hi; simpl in Hi.
  - destruct (hasattr c "predict_proba");
      repeat (apply elem_of_cons in Hi as [->|Hi]; [done|]);
      by apply elem_of_nil in Hi.
  - repeat (apply elem_of_cons in Hi as [->|Hi]; [done|]);
      by apply elem_of_nil in Hi.
  - repeat (apply elem_of_cons in Hi as [->|Hi]; [done|]);
      by apply elem_of_nil in Hi.
Qed.

(** X5. The docstring that [__init__] of a synthesised class carries
    depends on the [__init__] of the wrapped class only.  A method with a
    docstring gives the template around that docstring; a method without
    one, or any other object without one, gives the template around the
    docstring of the class; another object that has a docstring, as the
    slot wrapper inherited from object, leaves [__init__] unpatched. *)
Theorem init_docstring (k : node_kind) (c : Class) (cls : NodeClass) :
  wrap_of k c = Ok cls →
  ∃ init, getattr c "__init__" = Ok init ∧
          method_doc cls "__init__" = init_doc_rule c init.
Proof.
  destruct (wrap_of_init_first k c) as (rest & -> & Hrest).
  unfold patch_docs. simpl.
  destruct (getattr c "__init__") as [init|e] eqn:Hg; simpl; [|done].
  intros Hw. exists init. split; [done|]. revert Hw.
  assert (∀ n0 n1, foldM (patch_method_doc c) rest n0 = Ok n1 →
            method_doc n1 "__init__" = method_doc n0 "__init__") as Hkeep.
  { intros n0 n1 Hf. by eapply foldM_patch_other_key. }
  destruct init as [[d|]|[d|]]; simpl;
    destruct (foldM _ rest _) as [n1|e] eqn:Hf; simpl; try done;
    intros [= <-]; try reflexivity.
  - by rewrite (Hkeep _ _ Hf).
  - by rewrite (Hkeep _ _ Hf).
Qed.

Lemma init_docstring_witness :
  ∃ cls,
    wrap_scikits_transformer Sample.PCA = Ok cls ∧
    method_doc cls "__init__" = None.
Proof.
  eexists. split; [vm_compute; reflexivity|].
  edestruct (init_docstring TransformerNode Sample.PCA) as (init & Hg & Hd);
    [vm_compute; reflexivity|].
  rewrite Hd. injection Hg as <-. reflexivity.
Defined.

(** ** Which names are excluded *)

(** X6. The exclusion test of [wrap_scikits_algorithms] holds exactly of
    the names that begin with the four characters Base, whatever follows,
    and of the name LinearModel: a name of fewer than four characters is
    never excluded, and a name such as Baseline is. *)
Theorem excluded_name_iff (name : string) :
  excluded_name name = true ↔
  (∃ rest, name = "Base" +:+ rest) ∨ name = "LinearModel".
Proof.
  split; [|apply excluded_name_spec].
  unfold excluded_name. rewrite orb_true_iff, !bool_decide_eq_true.
  intros [Ht|He]; [left | by right].
  unfold PyStr.take in Ht.
  destruct name as [|a1 [|a2 [|a3 [|a4 rest]]]]; simpl in Ht; try done.
  injection Ht as -> -> -> -> _. by exists rest.
Qed.

(** ** What [wrap_scikits_algorithms] appends *)

(** X7. When [wrap_scikits_algorithms] returns, the list it was given is
    still a prefix of the result.  Nothing is appended for an excluded
    name or for a class that is neither a classifier nor has transform or
    predict; otherwise one class is appended, which wraps the given class
    and is of the classifier shape for a subclass of the marker, else of
    the transformer shape if the class has transform, else of the
    predictor shape. *)
Theorem wrap_scikits_algorithms_appends (CM c : Class) (l l' : list NodeClass) :
  wrap_scikits_algorithms CM c l = Ok l' →
  if excluded_name (cls_name c) then l' = l
  else
    let appended k :=
      ∃ cls, l' = l ++ [cls] ∧ node_kind_of cls = k ∧ scikits_class cls = c in
    if issubclass c CM then appended ClassifierNode
    else if hasattr c "transform" then appended TransformerNode
    else if hasattr c "predict" then appended PredictorNode
    else l' = l.
Proof.
  unfold wrap_scikits_algorithms.
  assert (∀ k, (let! node := wrap_of k c in Ok (l ++ [node])) = Ok l' →
            ∃ cls, l' = l ++ [cls] ∧ node_kind_of cls = k ∧ scikits_class cls = c)
    as Hone.
  { intros k. destruct (wrap_of k c) as [cls|e] eqn:Hw; simpl; [|done].
    intros [= <-]. apply wrap_of_ok in Hw as (? & ? & _). by exists cls. }
  destruct (excluded_name _); [by intros [= <-]|].
  destruct (issubclass c CM); [apply (Hone ClassifierNode)|].
  destruct (hasattr c "transform"); [apply (Hone TransformerNode)|].
  destruct (hasattr c "predict"); [apply (Hone PredictorNode)|].
  by intros [= <-].
Qed.

(** SVC derives from the marker and gets the classifier shape. *)
Lemma wrap_scikits_algorithms_appends_witness :
  ∃ l', wrap_scikits_algorithms Sample.ClassifierMixin Sample.SVC [] = Ok l' ∧
        ∃ cls, l' = [] ++ [cls] ∧ node_kind_of cls = ClassifierNode
               ∧ scikits_class cls = Sample.SVC.
Proof.
  eexists. split; [vm_compute; reflexivity|].
  refine (wrap_scikits_algorithms_appends Sample.ClassifierMixin Sample.SVC
            [] _ _).
  vm_compute; reflexivity.
Defined.

(** ** The list of synthesised classes, in full *)

Lemma foldM_wrap_classes CM calls l0 l :
  foldM (wrap_scikits_algorithms CM) calls l0 = Ok l →
  scikits_class <$> l
  = (scikits_class <$> l0) ++ filter (λ c, is_Some (classify CM c)) calls.
Proof.
  revert l0. induction calls as [|c calls IH]; intros l0; simpl.
  { intros [= <-]. by rewrite app_nil_r. }
  destruct (wrap_scikits_algorithms CM c l0) as [l1|e] eqn:Hw; simpl; [|done].
  intros Hrest. rewrite (IH _ Hrest). rewrite filter_cons.
  rewrite wrap_scikits_algorithms_routing in Hw.
  destruct (decide (is_Some (classify CM c))) as [[k Hk]|Hno].
  - rewrite Hk in Hw.
    destruct (wrap_of k c) as [node|e] eqn:Hwr; simpl in Hw; [|done].
    injection Hw as <-. apply wrap_of_ok in Hwr as (_ & Hc & _).
    rewrite fmap_app. simpl. by rewrite Hc, <-app_assoc.
  - destruct (classify CM c) as [k|] eqn:Hk; [exfalso; apply Hno; by eexists|].
    by injection Hw as <-.
Qed.

(** X8. The list [scikits_nodes] holds one class for each visited class
    that passes the test of the walk and is routed to a synthesiser, and
    holds them in the order in which the walk visited the wrapped classes;
    each is what the synthesiser of its shape returns for the class it
    wraps.  No eligible class is left out. *)
Theorem scikits_nodes_in_visiting_order (CM : Class) (h : heap)
    (fuel root : nat) (nodes : list NodeClass) :
  scikits_nodes CM h fuel root = Some (Ok nodes) →
  ∃ v st,
    apply_to_scikits_algorithms h (wrap_scikits_algorithms CM) fuel root
      None None [] = Some (Ok (v, st)) ∧
    scikits_class <$> nodes
    = filter (λ c, is_Some (classify CM c))
        (filter (λ c, is_algorithm c = true) (processed_classes st)) ∧
    ∀ cls, cls ∈ nodes →
      wrap_of (node_kind_of cls) (scikits_class cls) = Ok cls.
Proof.
  intros Hn. pose proof Hn as Hn'. unfold scikits_nodes in Hn.
  destruct (apply_to_scikits_algorithms _ _ _ _ _ _ _) as [[[v st]|e]|] eqn:Hw;
    [|done..].
  injection Hn as <-. exists v, st. split; [done|].
  apply fresh_walk in Hw as (_ & _ & _ & _ & _ & Hfold). split.
  - by apply foldM_wrap_classes in Hfold.
  - intros cls Hin.
    by destruct (scikits_nodes_entry _ _ _ _ _ _ Hn' Hin) as (_ & _ & _ & _ & ?).
Qed.

Lemma scikits_nodes_in_visiting_order_witness :
  ∃ nodes,
    scikits_nodes Sample.ClassifierMixin Sample.cyclic 5 10 = Some (Ok nodes) ∧
    scikits_class <$> nodes = [Sample.SVC; Sample.PCA].
Proof.
  eexists. split; [vm_compute; reflexivity|].
  edestruct (scikits_nodes_in_visiting_order Sample.ClassifierMixin
               Sample.cyclic 5 10) as (v & st & _ & Hc & _);
    [vm_compute; reflexivity|].
  vm_compute; reflexivity.
Defined.

(** ** How the assembly of the registry ends *)

(** X9. On a namespace whose module references resolve, the assembly of
    the registry returns once the fuel exceeds the number of modules, and
    it ends in one of two ways: with a registry, or with the
    AttributeError of a synthesiser, raised for a class that passed the
    test of the walk, was routed to a synthesiser and lacks one of the
    attributes that synthesiser requires. *)
Theorem registry_assembly_outcome (CM : Class) (h : heap) (root : nat) :
  heap_closed h → is_Some (h !! root) →
  (∃ d, DICT_ CM h (S (size h)) root = Some (Ok d)) ∨
  (∃ c k name,
     is_algorithm c = true ∧ classify CM c = Some k ∧
     name ∈ required_attrs k ∧ hasattr c name = false ∧
     DICT_ CM h (S (size h)) root = Some (Raise (Exn AttributeError name))).
Proof.
  intros Hcl Hroot.
  assert (is_Some (apply_to_scikits_algorithms h (wrap_scikits_algorithms CM)
                     (S (size h)) root None None [])) as [r Hr].
  { apply walk_terminates; [done..|]. unfold unprocessed. simpl.
    rewrite difference_empty_L, size_dom. lia. }
  unfold DICT_, scikits_nodes. rewrite Hr.
  destruct r as [[v st]|e]; [left; by eexists|right].
  unfold apply_to_scikits_algorithms in Hr.
  apply walk_raise_algorithm in Hr as (c & a & Halg & Ha).
  rewrite wrap_scikits_algorithms_routing in Ha.
  destruct (classify CM c) as [k|] eqn:Hk; [|done].
  destruct (wrap_of k c) as [cls|e1] eqn:Hw; simpl in Ha; [done|].
  injection Ha as ->. apply wrap_of_raise in Hw as (name & Hn & Hh & ->).
  by exists c, k, name.
Qed.

Lemma registry_assembly_outcome_witness :
  (∃ d, DICT_ Sample.ClassifierMixin Sample.stateless
          (S (size Sample.stateless)) 30 = Some (Ok d)) ∨
  (∃ c k name,
     is_algorithm c = true ∧ classify Sample.ClassifierMixin c = Some k ∧
     name ∈ required_attrs k ∧ hasattr c name = false ∧
     DICT_ Sample.ClassifierMixin Sample.stateless
       (S (size Sample.stateless)) 30
     = Some (Raise (Exn AttributeError name))).
Proof.
  apply registry_assembly_outcome.
  - apply (bool_decide_unpack _). vm_compute. exact I.
  - vm_compute. eexists. reflexivity.
Defined.

(** ** Constructing and running a node *)

(** X10. Constructing a node succeeds only without an output
    dimensionality, and then the base class was initialised first, on the
    world as the caller left it, and the wrapped class was instantiated
    after it with the keyword arguments of the caller; the node holds that
    instance and belongs to the class it was constructed from.  When the
    base class raises, the wrapped class is not instantiated. *)
Theorem node_construction {Alg Kwargs Base W : Type}
    (construct : Class → Kwargs → W → result Alg * W)
    (base_init : node_kind → option nat → option nat → option string → W
                 → result Base * W)
    (cls : NodeClass) (input_dim output_dim : option nat)
    (dtype : option string) (kwargs : Kwargs) (w : W) :
  (∀ self w2,
     ScikitsNode_init construct base_init cls input_dim output_dim dtype
       kwargs w = (Ok self, w2) →
     output_dim = None ∧ node_class self = cls ∧
     ∃ w1,
       base_init (node_kind_of cls) input_dim None dtype w
         = (Ok (node_base self), w1) ∧
       construct (scikits_class cls) kwargs w1 = (Ok (scikits_alg self), w2)) ∧
  (∀ e w1,
     base_init (node_kind_of cls) input_dim None dtype w = (Raise e, w1) →
     ScikitsNode_init construct base_init cls input_dim None dtype kwargs w
       = (Raise e, w1)).
Proof.
  split.
  - intros self w2. unfold ScikitsNode_init.
    destruct output_dim as [d|]; [done|].
    destruct (base_init _ _ _ _ _) as [[base|e] w1] eqn:Hb; [|done].
    destruct (construct _ _ _) as [[alg|e] w2'] eqn:Hc; [|done].
    intros [= <- <-]. simpl. split_and!; try done. by exists w1.
  - intros e w1 Hb. unfold ScikitsNode_init. by rewrite Hb.
Qed.

(** X11. For an instance of a class made by the predictor synthesiser,
    execute hands its input to the wrapped predict and returns what that
    returns, result and world. *)
Theorem predictor_execute_forwards {T Alg Base W : Type}
    (alg_predict alg_transform : Alg → ndarray T → W → result (ndarray T) * W)
    (base_execute : @Node Alg Base → ndarray T → W → result (ndarray T) * W)
    (c : Class) (cls : NodeClass) (self : @Node Alg Base)
    (x : ndarray T) (w : W) :
  wrap_scikits_predictor c = Ok cls → node_class self = cls →
  ScikitsNode_execute alg_predict alg_transform base_execute self x w
  = alg_predict (scikits_alg self) x w.
Proof.
  intros Hw Hcls. apply (wrap_of_ok PredictorNode) in Hw as (Hk & _).
  unfold ScikitsNode_execute, predictor_execute. by rewrite Hcls, Hk.
Qed.

Lemma predictor_execute_forwards_witness :
  ∃ cls,
    wrap_scikits_predictor Sample.Lasso = Ok cls ∧
    ScikitsNode_execute Sample.predict Sample.transform
      (λ _ x w, (Ok x, w)) (Sample.node_of cls) Sample.batch
      {| Sample.constructed := 1; Sample.seen := [] |}
    = (Ok (NdArray [3] [1; 1; 1]),
       {| Sample.constructed := 1; Sample.seen := [Sample.batch] |}).
Proof.
  eexists. split; [vm_compute; reflexivity|].
  etrans.
  - eapply (predictor_execute_forwards Sample.predict Sample.transform _
              Sample.Lasso); vm_compute; reflexivity.
  - vm_compute; reflexivity.
Defined.

(** X12. The label operation of a classifier node calls the wrapped
    predict once and passes its exception on unchanged.  A result without
    axes makes the indexing raise IndexError; any other result comes back
    with the same elements and with an axis of length one inserted after
    the first, so a table of shape (N, k) comes back with shape (N, 1, k)
    and not as a column. *)
Theorem label_outcomes {T Alg Base W : Type}
    (alg_predict : Alg → ndarray T → W → result (ndarray T) * W)
    (c : Class) (cls : NodeClass) (self : @Node Alg Base)
    (x : ndarray T) (w : W) :
  wrap_scikits_classifier c = Ok cls → node_class self = cls →
  (ScikitsNode_label alg_predict self x w).2
    = (alg_predict (scikits_alg self) x w).2 ∧
  (∀ e, (alg_predict (scikits_alg self) x w).1 = Raise e →
        (ScikitsNode_label alg_predict self x w).1 = Raise e) ∧
  (∀ y, (alg_predict (scikits_alg self) x w).1 = Ok y →
        match shape y with
        | [] => ∃ msg, (ScikitsNode_label alg_predict self x w).1
                       = Raise (Exn IndexError msg)
        | n :: rest =>
            (ScikitsNode_label alg_predict self x w).1
            = Ok (NdArray (n :: 1 :: rest) (data y))
        end).
Proof.
  intros Hw Hcls. apply (wrap_of_ok ClassifierNode) in Hw as (Hk & _).
  unfold ScikitsNode_label, classifier_label. rewrite Hcls, Hk.
  destruct (alg_predict (scikits_alg self) x w) as [[y|e] w']; simpl;
    (split_and!; [done| |]).
  - done.
  - intros y' [= <-]. unfold index_all_newaxis.
    destruct (shape y); [by eexists | done].
  - by intros e' [= <-].
  - done.
Qed.

Lemma label_outcomes_witness :
  ∃ cls,
    wrap_scikits_classifier Sample.SVC = Ok cls ∧
    (ScikitsNode_label Fixtures.predict_table (Sample.node_of cls) Sample.batch
       {| Sample.constructed := 1; Sample.seen := [] |}).1
    = Ok (NdArray [2; 1; 3] [1; 2; 3; 4; 5; 6]).
Proof.
  eexists. split; [vm_compute; reflexivity|].
  match goal with
  | |- (ScikitsNode_label _ (Sample.node_of ?cls) _ ?w).1 = _ =>
      destruct (label_outcomes Fixtures.predict_table Sample.SVC cls
                  (Sample.node_of cls) Sample.batch w) as (_ & _ & Hy);
      [vm_compute; reflexivity | reflexivity |]
  end.
  exact (Hy (NdArray [2; 3] [1; 2; 3; 4; 5; 6]) eq_refl).
Defined.

(** ** Loading the submodules *)

Section ImportsTheory.
Context {W : Type}.
Variable import_ : string → W → option import_failure * W.

Lemma after_imports_cons name names w :
  after_imports import_ (name :: names) w
  = after_imports import_ names (import_ ("scikits.learn." +:+ name) w).2.
Proof. reflexivity. Qed.

(** X13. The import loop tries the names in order and goes on after an
    ImportError: when no import raises anything else, it ends normally
    having tried every name.  An exception other than ImportError leaves
    the loop at the import that raised it, so the later names are not
    tried. *)
Theorem import_all_outcomes (names : list string) (w : W) :
  ((∀ pre name post e, names = pre ++ name :: post →
      (import_ ("scikits.learn." +:+ name) (after_imports import_ pre w)).1
      ≠ Some (OtherFailure e)) →
   import_all import_ names w = (None, after_imports import_ names w)) ∧
  (∀ e w', import_all import_ names w = (Some e, w') →
     ∃ pre name post,
       names = pre ++ name :: post ∧
       import_ ("scikits.learn." +:+ name) (after_imports import_ pre w)
       = (Some (OtherFailure e), w')).
Proof.
  revert w. induction names as [|name rest IH]; intros w.
  { split; [done|]. by intros e w'. }
  assert (∀ w1, (import_ ("scikits.learn." +:+ name) w).2 = w1 →
            (∀ pre n post e, name :: rest = pre ++ n :: post →
               (import_ ("scikits.learn." +:+ n) (after_imports import_ pre w)).1
               ≠ Some (OtherFailure e)) →
            ∀ pre n post e, rest = pre ++ n :: post →
              (import_ ("scikits.learn." +:+ n) (after_imports import_ pre w1)).1
              ≠ Some (OtherFailure e)) as Htail.
  { intros w1 <- Hno pre n post e Hs.
    specialize (Hno (name :: pre) n post e). rewrite after_imports_cons in Hno.
    apply Hno. by rewrite Hs. }
  split.
  - intros Hno. rewrite after_imports_cons.
    pose proof (Hno [] name rest) as H0.
    change (after_imports import_ [] w) with w in H0.
    cbn [import_all].
    destruct (import_ ("scikits.learn." +:+ name) w) as [[[|e]|] w1] eqn:Hi;
      cbn [fst snd] in *.
    + apply IH. by apply Htail.
    + by destruct (H0 e eq_refl).
    + apply IH. by apply Htail.
  - intros e w'. cbn [import_all].
    destruct (import_ ("scikits.learn." +:+ name) w) as [[[|e1]|] w1] eqn:Hi.
    + intros (pre & n & post & -> & Hn)%IH. exists (name :: pre), n, post.
      split; [done|]. by rewrite after_imports_cons, Hi.
    + intros [= <- <-]. by exists [], name, rest.
    + intros (pre & n & post & -> & Hn)%IH. exists (name :: pre), n, post.
      split; [done|]. by rewrite after_imports_cons, Hi.
Qed.

End ImportsTheory.

(** On a system that lacks ann and hmm all twenty names are tried; with a
    broken glm the loop stops there, after eight tries. *)
Example import_submodules_sample :
  (import_submodules (Fixtures.importer false) []).1 = None ∧
  length (import_submodules (Fixtures.importer false) []).2 = 20 ∧
  (import_submodules (Fixtures.importer true) []).1
    = Some (Exn Exception "syntax") ∧
  length (import_submodules (Fixtures.importer true) []).2 = 8.
Proof. split_and!; vm_compute; reflexivity. Qed.
